(** * AgentX: the agent ledger contracts and the off-chain loops around them

  A shallow embedding of

  - [contracts/Agent.sol] and [contracts/AgentFactory.sol] (Solidity 0.8.28,
    checked arithmetic),
  - the per-agent loop of [executor/index.js],
  - the fleet scan and the bounded history of [monitor/index.js],
  - the goal-update route of the HTTP layer,

  followed by the properties of the design document that were checked
  against them. *)

From Stdlib Require Import ZArith String Ascii List Bool Lia.
From stdpp Require Import base option list strings pretty gmap fin_maps sorting.

Local Open Scope Z_scope.

(** ** The ledger: what a contract call sees and how it can fail *)

Module EVM.

(** 160-bit account identifiers; [address(0)] is [0]. *)
Definition address : Type := Z.

(** [uint256]: a non-negative integer below [2^256].  Solidity 0.8 checks
    every [+] and [++]: an overflow reverts with [Panic(0x11)]. *)
Definition MAX_UINT256 : Z := 2 ^ 256 - 1.

Definition is_uint256 (z : Z) : Prop := 0 <= z <= MAX_UINT256.

Definition checked_add (a b : Z) : option Z :=
  if a + b <=? MAX_UINT256 then Some (a + b) else None.

(** [msg.sender] and [block.timestamp] of the transaction being run. *)
Record Msg := mkMsg { sender : address; block_timestamp : Z }.

(** Every way the two contracts revert. *)
Inductive Revert :=
| OnlyOwner
| OnlyOwnerOrFactory
| NewOwnerZero
| OffsetOutOfBounds
| PanicOverflow
| PanicIndex.

(** The revert string (or panic code) carried by each of them. *)
Definition message (r : Revert) : string :=
  match r with
  | OnlyOwner => "Only owner can call this function"
  | OnlyOwnerOrFactory => "Only owner or factory can call this function"
  | NewOwnerZero => "New owner cannot be zero address"
  | OffsetOutOfBounds => "Offset out of bounds"
  | PanicOverflow => "Panic(0x11)"
  | PanicIndex => "Panic(0x32)"
  end.

(** The error kinds of the design document and the reverts they name. *)
Inductive ErrorKind :=
| Unauthorized | InvalidArgument | NotFound | OutOfRange | Unavailable | Internal.

Definition kind (r : Revert) : ErrorKind :=
  match r with
  | OnlyOwner | OnlyOwnerOrFactory => Unauthorized
  | NewOwnerZero => InvalidArgument
  | OffsetOutOfBounds => OutOfRange
  | PanicOverflow | PanicIndex => Internal
  end.

Inductive Result (A : Type) :=
| Ok (a : A)
| Reverted (r : Revert).
Arguments Ok {A} a.
Arguments Reverted {A} r.

End EVM.

Export EVM.

(** ** contracts/Agent.sol *)

Module Agent.

Record Memory := mkMemory {
  key : string;
  value : string;
  timestamp : Z
}.

(** The storage of one [Agent] contract.  [memoryIndex] is the
    [mapping(string => uint256)]: a key that was never written reads [0].
    Array lengths and positions are [nat]: a storage array cannot grow to
    [2^256] entries.  Strings are compared through [keccak256] in the
    source; the hash is taken to be injective, so this is string
    equality.  The events the functions emit are log entries: they are no
    part of the storage and are left out. *)
Record State := mkState {
  owner : address;
  factory : address;
  goal : string;
  lastResponse : string;
  lastExecutionTime : Z;
  executionCount : Z;
  isActive : bool;
  memories : list Memory;
  memoryIndex : gmap string nat
}.

Definition readIndex (s : State) (k : string) : nat :=
  default 0%nat (memoryIndex s !! k).

(** *** Modifiers *)

Definition onlyOwner (m : Msg) (s : State) : bool :=
  sender m =? owner s.

Definition onlyOwnerOrFactory (m : Msg) (s : State) : bool :=
  (sender m =? owner s) || (sender m =? factory s).

(** *** constructor(address _owner, string _goal)

    [lastResponse], [memories] and [memoryIndex] keep the zero value of
    fresh storage. *)
Definition constructor (m : Msg) (_owner : address) (_goal : string) : State :=
  {| owner := _owner;
     factory := sender m;
     goal := _goal;
     lastResponse := EmptyString;
     lastExecutionTime := block_timestamp m;
     executionCount := 0;
     isActive := true;
     memories := [];
     memoryIndex := ∅ |}.

(** *** updateGoal *)
Definition updateGoal (m : Msg) (_newGoal : string) (s : State) : Result State :=
  if onlyOwner m s then
    Ok {| owner := owner s; factory := factory s;
          goal := _newGoal;
          lastResponse := lastResponse s;
          lastExecutionTime := lastExecutionTime s;
          executionCount := executionCount s;
          isActive := isActive s;
          memories := memories s; memoryIndex := memoryIndex s |}
  else Reverted OnlyOwner.

(** *** storeResponse

    [executionCount++] is checked: at [MAX_UINT256] the call panics. *)
Definition storeResponse (m : Msg) (_response : string) (s : State) : Result State :=
  if onlyOwnerOrFactory m s then
    match checked_add (executionCount s) 1 with
    | Some n =>
        Ok {| owner := owner s; factory := factory s; goal := goal s;
              lastResponse := _response;
              lastExecutionTime := block_timestamp m;
              executionCount := n;
              isActive := isActive s;
              memories := memories s; memoryIndex := memoryIndex s |}
    | None => Reverted PanicOverflow
    end
  else Reverted OnlyOwnerOrFactory.

(** *** storeMemory *)

Definition setMemories (s : State) (ms : list Memory) (ix : gmap string nat) : State :=
  {| owner := owner s; factory := factory s; goal := goal s;
     lastResponse := lastResponse s;
     lastExecutionTime := lastExecutionTime s;
     executionCount := executionCount s;
     isActive := isActive s;
     memories := ms; memoryIndex := ix |}.

(** [memories[i].value = _value; memories[i].timestamp = block.timestamp] *)
Definition overwrite (old : Memory) (_value : string) (now : Z) : Memory :=
  {| key := key old; value := _value; timestamp := now |}.

(** The search loop of the first branch,
    [for (i = 0; i < memories.length; i++)], leaving at the first entry
    whose key matches.  [todo] counts the iterations that remain; the
    result is the array and the flag [exists]. *)
Fixpoint storeMemory_loop (todo i : nat) (_key _value : string) (now : Z)
    (ms : list Memory) : list Memory * bool :=
  match todo with
  | O => (ms, false)
  | S todo' =>
      match ms !! i with
      | Some e =>
          if decide (key e = _key)
          then (<[i := overwrite e _value now]> ms, true)
          else storeMemory_loop todo' (S i) _key _value now ms
      | None => (ms, false)
      end
  end.

(** [memories.push(Memory(_key, _value, block.timestamp));
     memoryIndex[_key] = memories.length;] *)
Definition pushMemory (s : State) (ms : list Memory) (_key _value : string) (now : Z) : State :=
  let ms' := ms ++ [mkMemory _key _value now] in
  setMemories s ms' (<[_key := length ms']> (memoryIndex s)).

Definition storeMemory (m : Msg) (_key _value : string) (s : State) : Result State :=
  if onlyOwnerOrFactory m s then
    let index := readIndex s _key in
    let now := block_timestamp m in
    if (index =? 0)%nat && (0 <? length (memories s))%nat then
      let '(ms, found) :=
        storeMemory_loop (length (memories s)) 0 _key _value now (memories s) in
      if found then Ok (setMemories s ms (memoryIndex s))
      else Ok (pushMemory s ms _key _value now)
    else if (0 <? index)%nat then
      match memories s !! (index - 1)%nat with
      | Some e =>
          Ok (setMemories s (<[(index - 1)%nat := overwrite e _value now]> (memories s))
                (memoryIndex s))
      | None => Reverted PanicIndex
      end
    else Ok (pushMemory s (memories s) _key _value now)
  else Reverted OnlyOwnerOrFactory.

(** *** getMemory: a view, open to every caller *)
Fixpoint getMemory_loop (todo i : nat) (_key : string) (ms : list Memory) : string * Z :=
  match todo with
  | O => (EmptyString, 0)
  | S todo' =>
      match ms !! i with
      | Some e =>
          if decide (key e = _key) then (value e, timestamp e)
          else getMemory_loop todo' (S i) _key ms
      | None => (EmptyString, 0)
      end
  end.

Definition getMemory (_key : string) (s : State) : string * Z :=
  getMemory_loop (length (memories s)) 0 _key (memories s).

Definition getAllMemories (s : State) : list Memory := memories s.

(** *** getAgentInfo *)
Record Info := mkInfo {
  agentOwner : address;
  currentGoal : string;
  latestResponse : string;
  lastExecution : Z;
  execCount : Z;
  active : bool;
  memoryCount : Z
}.

Definition getAgentInfo (s : State) : Info :=
  {| agentOwner := owner s;
     currentGoal := goal s;
     latestResponse := lastResponse s;
     lastExecution := lastExecutionTime s;
     execCount := executionCount s;
     active := isActive s;
     memoryCount := Z.of_nat (length (memories s)) |}.

(** *** setActive, transferOwnership *)
Definition setActive (m : Msg) (_active : bool) (s : State) : Result State :=
  if onlyOwner m s then
    Ok {| owner := owner s; factory := factory s; goal := goal s;
          lastResponse := lastResponse s;
          lastExecutionTime := lastExecutionTime s;
          executionCount := executionCount s;
          isActive := _active;
          memories := memories s; memoryIndex := memoryIndex s |}
  else Reverted OnlyOwner.

Definition transferOwnership (m : Msg) (_newOwner : address) (s : State) : Result State :=
  if onlyOwner m s then
    if _newOwner =? 0 then Reverted NewOwnerZero
    else
      Ok {| owner := _newOwner; factory := factory s; goal := goal s;
            lastResponse := lastResponse s;
            lastExecutionTime := lastExecutionTime s;
            executionCount := executionCount s;
            isActive := isActive s;
            memories := memories s; memoryIndex := memoryIndex s |}
  else Reverted OnlyOwner.

(** *** The life of an agent on the ledger

    The state-changing entry points, and a transaction as the ledger runs
    it: a call that reverts leaves the storage as it was. *)
Inductive Call :=
| CallUpdateGoal (_newGoal : string)
| CallStoreResponse (_response : string)
| CallStoreMemory (_key _value : string)
| CallSetActive (_active : bool)
| CallTransferOwnership (_newOwner : address).

Definition dispatch (m : Msg) (c : Call) (s : State) : Result State :=
  match c with
  | CallUpdateGoal g => updateGoal m g s
  | CallStoreResponse r => storeResponse m r s
  | CallStoreMemory k v => storeMemory m k v s
  | CallSetActive b => setActive m b s
  | CallTransferOwnership a => transferOwnership m a s
  end.

Definition transact (m : Msg) (c : Call) (s : State) : State :=
  match dispatch m c s with
  | Ok s' => s'
  | Reverted _ => s
  end.

(** [history t s]: [s] is the storage of an agent whose latest transaction
    (or whose creation) was mined at block time [t]; block timestamps do
    not go backwards along the chain. *)
Inductive history : Z -> State -> Prop :=
| history_created (m : Msg) (_owner : address) (_goal : string) :
    history (block_timestamp m) (constructor m _owner _goal)
| history_transact (t : Z) (s : State) (m : Msg) (c : Call) :
    history t s ->
    t <= block_timestamp m ->
    history (block_timestamp m) (transact m c s).

(** What links [memoryIndex] to [memories]: a key is recorded at position
    [i] exactly when the mapping holds [i + 1] for it. *)
Definition index_agrees (s : State) : Prop :=
  forall (k : string) (i : nat),
    readIndex s k = S i <->
    exists e, memories s !! i = Some e /\ key e = k.

(** The upsert of the design document, for comparison with [storeMemory]:
    an update at the recorded position, or a push when the mapping holds
    nothing for the key. *)
Definition upsert (m : Msg) (k v : string) (s : State) : State :=
  match readIndex s k with
  | O => pushMemory s (memories s) k v (block_timestamp m)
  | S i =>
      setMemories s (<[i := mkMemory k v (block_timestamp m)]> (memories s))
        (memoryIndex s)
  end.

(** Two states with the same array and the same mapping. *)
Definition same_memories (s s' : State) : Prop :=
  memories s' = memories s /\ memoryIndex s' = memoryIndex s.

(** *** Runs of transactions

    [replay txs s]: the storage after the ledger ran [txs], one after the
    other, on an agent whose storage was [s]. *)
Fixpoint replay (txs : list (Msg * Call)) (s : State) : State :=
  match txs with
  | [] => s
  | (m, c) :: rest => replay rest (transact m c s)
  end.

(** The block times of [txs] do not go backwards, starting at [t]. *)
Fixpoint chronological (t : Z) (txs : list (Msg * Call)) : Prop :=
  match txs with
  | [] => True
  | (m, _) :: rest => t <= block_timestamp m /\ chronological (block_timestamp m) rest
  end.

Definition isStoreResponse (tx : Msg * Call) : bool :=
  match snd tx with CallStoreResponse _ => true | _ => false end.

Definition isStoreMemory (tx : Msg * Call) : bool :=
  match snd tx with CallStoreMemory _ _ => true | _ => false end.

(** The sender of a transaction is neither the owner nor the factory. *)
Definition stranger (m : Msg) (s : State) : Prop :=
  sender m <> owner s /\ sender m <> factory s.

End Agent.

(** ** contracts/AgentFactory.sol *)

Module AgentFactory.

(** The factory's own storage.  [self] is the address the factory is
    deployed at: it is the [msg.sender] every agent's constructor sees. *)
Record State := mkState {
  self : address;
  agents : list address;
  userAgents : gmap address (list address);
  isAgent : gmap address bool
}.

Definition deploy (at_ : address) : State :=
  {| self := at_; agents := []; userAgents := ∅; isAgent := ∅ |}.

Definition getUserAgents (user : address) (f : State) : list address :=
  default [] (userAgents f !! user).

Definition getAgentCount (f : State) : Z := Z.of_nat (length (agents f)).

Definition isValidAgent (agent : address) (f : State) : bool :=
  default false (isAgent f !! agent).

(** The copy loop of [getAgents], [for (i = offset; i < end; i++)
    result[i - offset] = agents[i]]; [todo] is [end - i]. *)
Fixpoint getAgents_loop (todo i offset : nat) (src result : list address)
    : Result (list address) :=
  match todo with
  | O => Ok result
  | S todo' =>
      match src !! i with
      | Some a => getAgents_loop todo' (S i) offset src (<[(i - offset)%nat := a]> result)
      | None => Reverted PanicIndex
      end
  end.

(** [getAgents(offset, limit)].  [offset + limit] is a checked addition;
    [new address[](n)] is zero-filled. *)
Definition getAgents (offset limit : Z) (f : State) : Result (list address) :=
  let len := Z.of_nat (length (agents f)) in
  if offset <? len then
    match checked_add offset limit with
    | Some sum =>
        let end_ := if sum >? len then len else sum in
        let n := Z.to_nat (end_ - offset) in
        getAgents_loop n (Z.to_nat offset) (Z.to_nat offset) (agents f) (replicate n 0)
    | None => Reverted PanicOverflow
    end
  else Reverted OffsetOutOfBounds.

End AgentFactory.

(** ** The ledger as the off-chain programs see it *)

Module Ledger.

(** The factory and the storage of every agent contract it deployed. *)
Record World := mkWorld {
  registry : AgentFactory.State;
  contracts : gmap address Agent.State
}.

Definition setContract (w : World) (a : address) (s : Agent.State) : World :=
  {| registry := registry w; contracts := <[a := s]> (contracts w) |}.

(** [AgentFactory.createAgent(_goal)].  [agentAddress] is the address the
    ledger gives the new contract. *)
Definition createAgent (m : Msg) (agentAddress : address) (_goal : string) (w : World)
    : World :=
  let f := registry w in
  let newAgent :=
    Agent.constructor (mkMsg (AgentFactory.self f) (block_timestamp m)) (sender m) _goal in
  {| registry :=
       {| AgentFactory.self := AgentFactory.self f;
          AgentFactory.agents := AgentFactory.agents f ++ [agentAddress];
          AgentFactory.userAgents :=
            <[sender m := AgentFactory.getUserAgents (sender m) f ++ [agentAddress]]>
              (AgentFactory.userAgents f);
          AgentFactory.isAgent := <[agentAddress := true]> (AgentFactory.isAgent f) |};
     contracts := <[agentAddress := newAgent]> (contracts w) |}.

(** A ledger on which the factory was deployed and nothing else happened. *)
Definition genesis (factoryAddress : address) : World :=
  mkWorld (AgentFactory.deploy factoryAddress) ∅.

(** One call of [createAgent]: the transaction, the address the ledger
    assigns, and the goal. *)
Record Registration := mkRegistration {
  creation : Msg;
  assigned : address;
  initialGoal : string
}.

Fixpoint registerAll (rs : list Registration) (w : World) : World :=
  match rs with
  | [] => w
  | r :: rest =>
      registerAll rest (createAgent (creation r) (assigned r) (initialGoal r) w)
  end.

End Ledger.

(** ** What the JavaScript side adds *)

Module Js.

(** The two numeric types.  ethers v6 (the version [package.json] asks
    for) decodes every [uint256] a contract returns as a [BigInt]. *)
Inductive Numeric :=
| Number (z : Z)
| BigInt (z : Z).

(** [Number(x)].  Block timestamps, counters and [Date.now()] stay far
    below [2^53], where the conversion is exact. *)
Definition toNumber (x : Numeric) : Z :=
  match x with Number z => z | BigInt z => z end.

(** [x == 0]: loose equality compares a BigInt and a Number by value. *)
Definition looseEqZero (x : Numeric) : bool := toNumber x =? 0.

(** [Math.min(a, b)] converts each argument with the abstract operation
    ToNumber, which throws a TypeError when handed a BigInt. *)
Definition Math_min (a b : Numeric) : option Z :=
  match a, b with
  | Number x, Number y => Some (Z.min x y)
  | _, _ => None
  end.

Definition quote : string := String (ascii_of_nat 34) EmptyString.
Definition newline : string := String (ascii_of_nat 10) EmptyString.

(** [arr.slice(-n)]: the last [n] elements, all of them when there are
    fewer. *)
Definition slice_last {A : Type} (n : nat) (l : list A) : list A :=
  drop (length l - n) l.

(** [s || fallback] for a string [s]: the empty string is falsy. *)
Definition or_else (s fallback : string) : string :=
  match s with EmptyString => fallback | _ => s end.

(** *** Strings

    A JavaScript string is a sequence of UTF-16 code units, and a contract
    stores the bytes of its UTF-8 form: that is what ethers sends for a
    [string] argument and what it reads back.  A string is held here in
    that form, the one both sides share, and what JavaScript does by code
    unit is computed over the code points the bytes spell.  A string with
    a lone surrogate has no UTF-8 form and is no value here; the one place
    where the code can make one, the cut of [substring], says so. *)

Definition byte (b : ascii) : Z := Z.of_nat (nat_of_ascii b).

(** The number of bytes of the sequence a byte starts.  A byte that starts
    none (below [0xC0]) stands alone. *)
Definition width (b : ascii) : nat :=
  if byte b <? 0xC0 then 1%nat
  else if byte b <? 0xE0 then 2%nat
  else if byte b <? 0xF0 then 3%nat
  else 4%nat.

(** The string cut into its code points, each one as the bytes that spell
    it: [current] is the code point being read and [more] the number of
    bytes it still lacks. *)
Fixpoint chunks (more : nat) (current : string) (s : string) : list string :=
  match s with
  | EmptyString => [current]
  | String b rest =>
      match more with
      | O => current :: chunks (width b - 1) (String b EmptyString) rest
      | S more' => chunks more' (current +:+ String b EmptyString) rest
      end
  end.

Definition codePoints (s : string) : list string :=
  match s with
  | EmptyString => []
  | String b rest => chunks (width b - 1) (String b EmptyString) rest
  end.

Definition join (l : list string) : string := foldr String.append EmptyString l.

(** A code point all of whose bytes are there. *)
Definition complete (c : string) : Prop :=
  match c with
  | EmptyString => False
  | String b _ => String.length c = width b
  end.

(** The number a code point has, from the bytes that spell it. *)
Definition continuation (b : ascii) : Z := Z.land (byte b) 0x3F.

Definition codePoint (c : string) : Z :=
  match c with
  | EmptyString => 0
  | String b0 EmptyString => byte b0
  | String b0 (String b1 EmptyString) =>
      Z.lor (Z.shiftl (Z.land (byte b0) 0x1F) 6) (continuation b1)
  | String b0 (String b1 (String b2 EmptyString)) =>
      Z.lor (Z.shiftl (Z.land (byte b0) 0x0F) 12)
        (Z.lor (Z.shiftl (continuation b1) 6) (continuation b2))
  | String b0 (String b1 (String b2 (String b3 _))) =>
      Z.lor (Z.shiftl (Z.land (byte b0) 0x07) 18)
        (Z.lor (Z.shiftl (continuation b1) 12)
           (Z.lor (Z.shiftl (continuation b2) 6) (continuation b3)))
  end.

(** The code units a code point takes in UTF-16: two above U+FFFF, a
    surrogate pair, and one otherwise. *)
Definition units (c : string) : nat :=
  if codePoint c <? 0x10000 then 1%nat else 2%nat.

(** [s.length] *)
Definition length (s : string) : nat := sum_list_with units (codePoints s).

(** The code points [String.prototype.trim] removes: WhiteSpace (TAB, VT,
    FF, U+FEFF and the space separators: SPACE, U+00A0, U+1680,
    U+2000..U+200A, U+202F, U+205F, U+3000) and LineTerminator (LF, CR,
    U+2028, U+2029). *)
Definition isWhiteSpace (cp : Z) : bool :=
  ((0x09 <=? cp) && (cp <=? 0x0D))
  || (cp =? 0x20) || (cp =? 0xA0) || (cp =? 0x1680)
  || ((0x2000 <=? cp) && (cp <=? 0x200A))
  || (cp =? 0x2028) || (cp =? 0x2029) || (cp =? 0x202F) || (cp =? 0x205F)
  || (cp =? 0x3000) || (cp =? 0xFEFF).

Definition blank (c : string) : bool := isWhiteSpace (codePoint c).

Fixpoint dropWhile {A : Type} (f : A -> bool) (l : list A) : list A :=
  match l with
  | [] => []
  | x :: rest => if f x then dropWhile f rest else l
  end.

(** [s.trim()]: the white space at the start goes, then the white space
    at the end. *)
Definition trim (s : string) : string :=
  join (rev (dropWhile blank (rev (dropWhile blank (codePoints s))))).

(** [s.substring(0, end)]: the first [end] code units, all of [s] when it
    has fewer.  [None] stands for a cut between the two halves of a
    surrogate pair: the string it leaves ends in a lone surrogate and has
    no UTF-8 form, and ethers throws "invalid surrogate pair" when asked
    to send it. *)
Fixpoint takeUnits (n : nat) (l : list string) : option (list string) :=
  match n, l with
  | O, _ => Some []
  | _, [] => Some []
  | S n', c :: rest =>
      match units c with
      | 1%nat => cons c <$> takeUnits n' rest
      | _ =>
          match n' with
          | O => None
          | S n'' => cons c <$> takeUnits n'' rest
          end
      end
  end.

Definition substring0 (end_ : nat) (s : string) : option string :=
  join <$> takeUnits end_ (codePoints s).

(** [!s] for a string [s]. *)
Definition falsy (s : string) : bool :=
  match s with EmptyString => true | _ => false end.

(** [s.startsWith(prefix)] *)
Definition startsWith (s prefix : string) : bool := String.prefix prefix s.

(** [s.replace(pattern, replacement)] for a string pattern and a
    replacement without [$]: the first occurrence is replaced, none if the
    pattern does not occur. *)
Fixpoint replace (pattern replacement s : string) : string :=
  if String.prefix pattern s
  then replacement +:+
       String.substring (String.length pattern)
         (String.length s - String.length pattern) s
  else match s with
       | EmptyString => EmptyString
       | String c rest => String c (replace pattern replacement rest)
       end.

(** [arr.sort(compare)].  The sort is stable, and with a comparator that
    orders by one number it has one possible result: the elements by that
    order, equal ones as they stood.  It is computed here by inserting
    from the right. *)
Fixpoint sort_insert {A : Type} (compare : A -> A -> Z) (x : A) (l : list A) : list A :=
  match l with
  | [] => [x]
  | y :: rest =>
      if compare x y <=? 0 then x :: y :: rest
      else y :: sort_insert compare x rest
  end.

Definition sort {A : Type} (compare : A -> A -> Z) (l : list A) : list A :=
  foldr (sort_insert compare) [] l.

End Js.

(** ** executor/index.js *)

Module AgentExecutor.

Import Ledger.

(** The calls that leave the process. *)
Inductive LedgerOp :=
| ReadAgentCount
| ReadAgents
| ReadAgentInfo
| ReadAllMemories
| SendStoreResponse
| SendStoreMemory.

(** What an [await] can throw.  [InvalidArgument] is the error of ethers
    for an argument it cannot encode, thrown before anything is sent. *)
Inductive Failure :=
| RpcFailed (op : LedgerOp)
| CallReverted (r : Revert)
| NoContract
| CompletionFailed
| TypeError
| InvalidArgument.

(** What a tick does that can be seen from outside. *)
Inductive Event :=
| Generate (agent : address) (prompt : string)
| Mined (agent : address) (c : Agent.Call)
| AgentError (agent : address) (e : Failure)
| LoopError (e : Failure).

(** Everything the outside world decides while one agent is processed:
    the clock readings, the blocks that mine the two transactions, the
    answer of the completion service ([None]: the call throws) and the
    ledger calls that fail or time out. *)
Record Surroundings := mkSurroundings {
  currentTime : Z;
  isoString : string;
  responseBlock : Z;
  memoryBlock : Z;
  completion : string -> option string;
  unavailable : LedgerOp -> bool
}.

Record Env := mkEnv {
  wallet : address;
  registryDown : LedgerOp -> bool;
  around : address -> Surroundings
}.

(** *** Control flow of an async function: a value, [return], or a throw *)

Inductive Completion (A : Type) :=
| Normal (a : A)
| Returned
| Thrown (e : Failure).
Arguments Normal {A} a.
Arguments Returned {A}.
Arguments Thrown {A} e.

Definition Task (A : Type) : Type := World -> Completion A * World * list Event.

Definition pure {A} (a : A) : Task A := fun w => (Normal a, w, []).
Definition return_ {A} : Task A := fun w => (Returned, w, []).
Definition throw {A} (e : Failure) : Task A := fun w => (Thrown e, w, []).
Definition emit (ev : Event) : Task unit := fun w => (Normal tt, w, [ev]).

Definition bind {A B} (c : Task A) (k : A -> Task B) : Task B :=
  fun w =>
    match c w with
    | (Normal a, w1, t1) => let '(r, w2, t2) := k a w1 in (r, w2, t1 ++ t2)
    | (Returned, w1, t1) => (Returned, w1, t1)
    | (Thrown e, w1, t1) => (Thrown e, w1, t1)
    end.

Notation "x <- c ;; k" := (bind c (fun x => k))
  (at level 100, c at next level, right associativity).
Notation "c ;;; k" := (bind c (fun _ => k))
  (at level 100, right associativity).

(** [try { body } catch (error) { handler }] *)
Definition try_catch (body : Task unit) (handler : Failure -> Task unit) : Task unit :=
  fun w =>
    match body w with
    | (Thrown e, w1, t1) => let '(r, w2, t2) := handler e w1 in (r, w2, t1 ++ t2)
    | other => other
    end.

(** The boundary of a function: the state and the events it leaves. *)
Definition run (body : Task unit) (w : World) : World * list Event :=
  let '(_, w1, t1) := body w in (w1, t1).

Definition call (f : World -> World * list Event) : Task unit :=
  fun w => let '(w1, t1) := f w in (Normal tt, w1, t1).

(** *** The gateways

    The numbers in what a read returns are BigInts; the source converts
    them with [Number(...)] wherever it computes with them, and the
    fields are kept as [Z]. *)

Definition getAgentInfo (sur : Surroundings) (a : address) : Task Agent.Info :=
  fun w =>
    if unavailable sur ReadAgentInfo then (Thrown (RpcFailed ReadAgentInfo), w, [])
    else match contracts w !! a with
         | Some s => (Normal (Agent.getAgentInfo s), w, [])
         | None => (Thrown NoContract, w, [])
         end.

Definition getAllMemories (sur : Surroundings) (a : address) : Task (list Agent.Memory) :=
  fun w =>
    if unavailable sur ReadAllMemories then (Thrown (RpcFailed ReadAllMemories), w, [])
    else match contracts w !! a with
         | Some s => (Normal (Agent.getAllMemories s), w, [])
         | None => (Thrown NoContract, w, [])
         end.

(** A transaction signed by the executor's wallet and mined at block time
    [t]; a failed or reverted submission changes nothing. *)
Definition send (sur : Surroundings) (op : LedgerOp) (from : address) (t : Z)
    (a : address) (c : Agent.Call) : Task unit :=
  fun w =>
    if unavailable sur op then (Thrown (RpcFailed op), w, [])
    else match contracts w !! a with
         | Some s =>
             match Agent.dispatch (mkMsg from t) c s with
             | Ok s' => (Normal tt, setContract w a s', [Mined a c])
             | Reverted r => (Thrown (CallReverted r), w, [])
             end
         | None => (Thrown NoContract, w, [])
         end.

(** [openai.chat.completions.create(...)], then
    [completion.choices[0].message.content]. *)
Definition createCompletion (sur : Surroundings) (a : address) (prompt : string)
    : Task string :=
  fun w =>
    match completion sur prompt with
    | Some text => (Normal text, w, [Generate a prompt])
    | None => (Thrown CompletionFailed, w, [Generate a prompt])
    end.

(** *** executeAgent *)

Definition minInterval : Z := 3600.

(** The test of line 157: the agent ran less than [minInterval] seconds
    ago and has run before. *)
Definition waiting (now : Z) (info : Agent.Info) : bool :=
  let timeSinceLastExecution := now - Agent.lastExecution info in
  (timeSinceLastExecution <? minInterval) && (Agent.execCount info >? 0).

Definition dueForExecution (now : Z) (info : Agent.Info) : bool :=
  negb (waiting now info).

Definition memoryLine (m : Agent.Memory) : string :=
  Agent.key m +:+ ": " +:+ Agent.value m +:+ Js.newline.

Definition memoryContext (memories : list Agent.Memory) : string :=
  if (0 <? length memories)%nat then
    fold_left (fun acc m => acc +:+ memoryLine m) (Js.slice_last 5 memories)
      (Js.newline +:+ Js.newline +:+ "Previous memories:" +:+ Js.newline)
  else EmptyString.

Definition buildPrompt (info : Agent.Info) (memories : list Agent.Memory) : string :=
  "You are an autonomous AI agent deployed on the blockchain. Your goal is: "
    +:+ Js.quote +:+ Agent.currentGoal info +:+ Js.quote +:+ Js.newline
    +:+ "      " +:+ Js.newline
    +:+ "Previous response: " +:+ Js.or_else (Agent.latestResponse info) "None" +:+ Js.newline
    +:+ "Execution count: " +:+ pretty (Agent.execCount info) +:+ Js.newline
    +:+ memoryContext memories +:+ Js.newline
    +:+ Js.newline
    +:+ "Please provide a response that helps achieve your goal. Be concise and actionable. If this is a recurring task, provide an update or summary.".

Definition executionKey (info : Agent.Info) : string :=
  "execution_" +:+ pretty (Agent.execCount info).

(** The value of the memory written after a run; [None] when the cut of
    the response at 200 code units leaves a string ethers cannot encode. *)
Definition executionNote (sur : Surroundings) (response : string) : option string :=
  (fun cut => isoString sur +:+ ": " +:+ cut) <$> Js.substring0 200 response.

Definition executeAgent_try (env : Env) (agentAddress : address) : Task unit :=
  let sur := around env agentAddress in
  info <- getAgentInfo sur agentAddress ;;
  if negb (Agent.active info) then return_
  else if waiting (currentTime sur) info then return_
  else
    memories <- getAllMemories sur agentAddress ;;
    response <- createCompletion sur agentAddress (buildPrompt info memories) ;;
    send sur SendStoreResponse (wallet env) (responseBlock sur) agentAddress
         (Agent.CallStoreResponse response) ;;;
    match executionNote sur response with
    | Some note =>
        send sur SendStoreMemory (wallet env) (memoryBlock sur) agentAddress
             (Agent.CallStoreMemory (executionKey info) note)
    | None => throw InvalidArgument
    end.

Definition executeAgent (env : Env) (agentAddress : address) (w : World)
    : World * list Event :=
  run (try_catch (executeAgent_try env agentAddress)
                 (fun error => emit (AgentError agentAddress error))) w.

(** *** executeAgents *)

(** [for (const agentAddress of agents) await this.executeAgent(agentAddress)] *)
Fixpoint executeLoop (env : Env) (agents : list address) (w : World)
    : World * list Event :=
  match agents with
  | [] => (w, [])
  | agentAddress :: rest =>
      let '(w1, t1) := executeAgent env agentAddress w in
      let '(w2, t2) := executeLoop env rest w1 in
      (w2, t1 ++ t2)
  end.

Definition getAgentCount (env : Env) : Task Js.Numeric :=
  fun w =>
    if registryDown env ReadAgentCount then (Thrown (RpcFailed ReadAgentCount), w, [])
    else (Normal (Js.BigInt (AgentFactory.getAgentCount (registry w))), w, []).

Definition getAgents (env : Env) (offset limit : Z) : Task (list address) :=
  fun w =>
    if registryDown env ReadAgents then (Thrown (RpcFailed ReadAgents), w, [])
    else match AgentFactory.getAgents offset limit (registry w) with
         | Ok page => (Normal page, w, [])
         | Reverted r => (Thrown (CallReverted r), w, [])
         end.

Definition executeAgents_try (env : Env) : Task unit :=
  agentCount <- getAgentCount env ;;
  if Js.looseEqZero agentCount then return_
  else
    match Js.Math_min agentCount (Js.Number 100) with
    | None => throw TypeError
    | Some limit =>
        agents <- getAgents env 0 limit ;;
        call (executeLoop env agents)
    end.

Definition executeAgents (env : Env) (w : World) : World * list Event :=
  run (try_catch (executeAgents_try env) (fun error => emit (LoopError error))) w.

(** *** Ways for the processing of one agent to go

    [commits env a s text]: on the snapshot [s] the agent is read, found
    active and due, the completion service answers [text] and the result
    transaction goes through.  Nothing is asked of the memory
    transaction that follows it. *)
Definition commits (env : Env) (a : address) (s : Agent.State) (text : string) : Prop :=
  let sur := around env a in
  unavailable sur ReadAgentInfo = false /\
  Agent.isActive s = true /\
  dueForExecution (currentTime sur) (Agent.getAgentInfo s) = true /\
  unavailable sur ReadAllMemories = false /\
  completion sur (buildPrompt (Agent.getAgentInfo s) (Agent.getAllMemories s)) = Some text /\
  unavailable sur SendStoreResponse = false /\
  Agent.onlyOwnerOrFactory (mkMsg (wallet env) (responseBlock sur)) s = true /\
  Agent.executionCount s < MAX_UINT256.


(** The fields of an agent that are its owner's to set: who owns it, who
    created it, what it is after and whether it runs. *)
Definition standing (s : Agent.State) : address * address * string * bool :=
  (Agent.owner s, Agent.factory s, Agent.goal s, Agent.isActive s).

End AgentExecutor.

(** ** monitor/index.js *)

Module AgentMonitor.

Import Ledger.

(** One data point, with the keys it is saved under. *)
Record Sample := mkSample {
  timestamp : Z;
  totalAgents : Z;
  activeAgents : Z;
  totalExecutions : Z;
  recentExecutions : Z
}.

(** What the outside world decides during one scan: the clock, the reads
    that fail, and whether the data file can be written. *)
Record Env := mkEnv {
  currentTime : Z;
  registryDown : bool;
  agentDown : address -> bool;
  writeFails : bool
}.

(** [AgentXUtils.getAllAgents(offset, limit)]: the page and
    [Number(totalCount)]; [None] when either call throws. *)
Definition getAllAgents (env : Env) (offset limit : Z) (w : World)
    : option (list address * Z) :=
  if registryDown env then None
  else match AgentFactory.getAgents offset limit (registry w) with
       | Ok page => Some (page, AgentFactory.getAgentCount (registry w))
       | Reverted _ => None
       end.

(** [AgentXUtils.getAgentInfo(agentAddress)], the fields the scan reads. *)
Definition getAgentInfo (env : Env) (agentAddress : address) (w : World)
    : option Agent.Info :=
  if agentDown env agentAddress then None
  else Agent.getAgentInfo <$> contracts w !! agentAddress.

(** The three running counters of [scanAgents]. *)
Record Counters := mkCounters {
  nActive : Z;
  nExecutions : Z;
  nRecent : Z
}.

Definition recentThreshold (env : Env) : Z := currentTime env - 3600.

(** The body of the [for] loop: an agent whose information cannot be read
    is logged and skipped.  [checkAgentHealth] only writes log lines. *)
Definition scanOne (env : Env) (w : World) (acc : Counters) (agentAddress : address)
    : Counters :=
  match getAgentInfo env agentAddress w with
  | Some agentInfo =>
      {| nActive := if Agent.active agentInfo then nActive acc + 1 else nActive acc;
         nExecutions := nExecutions acc + Agent.execCount agentInfo;
         nRecent := if Agent.lastExecution agentInfo >? recentThreshold env
                    then nRecent acc + 1 else nRecent acc |}
  | None => acc
  end.

(** The data file: missing, unreadable as JSON, or the saved array. *)
Inductive DataFile :=
| Absent
| Garbled
| Stored (historicalData : list Sample).

Definition loadHistory (f : DataFile) : list Sample :=
  match f with
  | Stored historicalData => historicalData
  | Absent | Garbled => []
  end.

Definition saveMonitoringData (env : Env) (data : Sample) (f : DataFile) : DataFile :=
  let historicalData := loadHistory f in
  let historicalData := historicalData ++ [data] in
  let historicalData :=
    if (1000 <? length historicalData)%nat
    then Js.slice_last 1000 historicalData
    else historicalData in
  if writeFails env then f else Stored historicalData.

Definition sampleOf (env : Env) (totalCount : Z) (c : Counters) : Sample :=
  {| timestamp := currentTime env;
     totalAgents := totalCount;
     activeAgents := nActive c;
     totalExecutions := nExecutions c;
     recentExecutions := nRecent c |}.

Definition scanAgents (env : Env) (w : World) (f : DataFile) : DataFile :=
  match getAllAgents env 0 1000 w with
  | Some (agents, totalCount) =>
      let c := fold_left (scanOne env w) agents (mkCounters 0 0 0) in
      saveMonitoringData env (sampleOf env totalCount c) f
  | None => f
  end.

(** A monitor's life: one scan after the other, each in its own
    surroundings, over whatever the ledger holds at that moment. *)
Fixpoint scans (rounds : list (Env * World)) (f : DataFile) : DataFile :=
  match rounds with
  | [] => f
  | (env, w) :: rest => scans rest (scanAgents env w f)
  end.

(** The same for the data points alone. *)
Fixpoint saves (points : list (Env * Sample)) (f : DataFile) : DataFile :=
  match points with
  | [] => f
  | (env, data) :: rest => saves rest (saveMonitoringData env data f)
  end.

(** The data points of [points] that reached the file. *)
Definition written (points : list (Env * Sample)) : list Sample :=
  snd <$> filter (fun p => writeFails (fst p) = false) points.

(** *** checkAgentHealth

    The three warnings it can write to the log, in the order it writes
    them. *)
Inductive Alert :=
| NotExecuting (hours : Z)
| TooManyExecutions (executions : Z)
| HighMemoryUsage (entries : Z).

Definition checkAgentHealth (env : Env) (agentInfo : Agent.Info) : list Alert :=
  let timeSinceLastExecution := currentTime env - Agent.lastExecution agentInfo in
  (if Agent.active agentInfo && (Agent.execCount agentInfo >? 0)
      && (timeSinceLastExecution >? 21600)
   then [NotExecuting (timeSinceLastExecution / 3600)] else [])
  ++ (if Agent.execCount agentInfo >? 1000
      then [TooManyExecutions (Agent.execCount agentInfo)] else [])
  ++ (if Agent.memoryCount agentInfo >? 100
      then [HighMemoryUsage (Agent.memoryCount agentInfo)] else []).

(** *** getMonitoringStats

    [avgActiveAgents] is the quotient of [activeSum] by [dataPoints], taken
    in floating point; the two numbers are kept apart here.  The field the
    source calls [totalExecutions] adds up [recentExecutions]. *)
Record Window := mkWindow {
  dataPoints : nat;
  activeSum : Z;
  windowExecutions : Z
}.

Inductive Stats :=
| StatsError (error : string)
| StatsReport (current : Sample) (hourly daily : Window) (history : list Sample).

Definition window (points : list Sample) : Window :=
  {| dataPoints := length points;
     activeSum := fold_left (fun sum d => sum + activeAgents d) points 0;
     windowExecutions := fold_left (fun sum d => sum + recentExecutions d) points 0 |}.

Definition getMonitoringStats (f : DataFile) : Stats :=
  match f with
  | Absent => StatsError "No monitoring data available"
  | Garbled => StatsError "Failed to load monitoring stats"
  | Stored data =>
      match last data with
      | None => StatsError "No monitoring data available"
      | Some latest =>
          let oneHourAgo := timestamp latest - 3600 in
          let oneDayAgo := timestamp latest - 86400 in
          let hourlyData := filter (fun d => oneHourAgo < timestamp d) data in
          let dailyData := filter (fun d => oneDayAgo < timestamp d) data in
          StatsReport latest (window hourlyData) (window dailyData) (Js.slice_last 24 data)
      end
  end.

End AgentMonitor.

(** ** The goal-update route of the HTTP layer *)

Module AgentXAPI.

Import Ledger.

Inductive Response :=
| Json (agentInfo : Agent.Info)
| Error (status : Z) (error : string).

Record Env := mkEnv {
  wallet : address;
  blockTime : Z
}.

(** [PUT /api/agents/:address/goal].  [goal] is the field of the request
    body, [None] when the body has none.  A revert or an unknown address
    ends in the [catch] of the route. *)
Definition putGoal (env : Env) (address_ : address) (goal : option string) (w : World)
    : Response * World :=
  match goal with
  | None => (Error 400 "Goal is required", w)
  | Some g =>
      if Js.falsy g || Js.falsy (Js.trim g) then (Error 400 "Goal is required", w)
      else
        match contracts w !! address_ with
        | Some s =>
            match Agent.updateGoal (mkMsg (wallet env) (blockTime env)) g s with
            | Ok s' => (Json (Agent.getAgentInfo s'), setContract w address_ s')
            | Reverted r => (Error 500 (message r), w)
            end
        | None => (Error 500 "no contract at this address", w)
        end
  end.

(** [POST /api/agents/:address/memory].  [key] and [value] are the fields
    of the request body, [None] when missing.  In this route and the next
    the ledger is taken to be in reach: what is modelled of the [catch] is
    a revert and an address without a contract. *)
Definition postMemory (env : Env) (address_ : address) (key value : option string)
    (w : World) : Response * World :=
  match key, value with
  | Some k, Some v =>
      if Js.falsy k || Js.falsy v then (Error 400 "Key and value are required", w)
      else
        match contracts w !! address_ with
        | Some s =>
            match Agent.storeMemory (mkMsg (wallet env) (blockTime env)) k v s with
            | Ok s' => (Json (Agent.getAgentInfo s'), setContract w address_ s')
            | Reverted r => (Error 500 (message r), w)
            end
        | None => (Error 500 "no contract at this address", w)
        end
  | _, _ => (Error 400 "Key and value are required", w)
  end.

(** [PUT /api/agents/:address/active].  [isActive] is [None] when the body
    carries no boolean under that name. *)
Definition putActive (env : Env) (address_ : address) (isActive : option bool)
    (w : World) : Response * World :=
  match isActive with
  | None => (Error 400 "isActive must be a boolean", w)
  | Some b =>
      match contracts w !! address_ with
      | Some s =>
          match Agent.setActive (mkMsg (wallet env) (blockTime env)) b s with
          | Ok s' => (Json (Agent.getAgentInfo s'), setContract w address_ s')
          | Reverted r => (Error 500 (message r), w)
          end
      | None => (Error 500 "no contract at this address", w)
      end
  end.

(** [GET /api/agents/:address/executions]: the memories whose key starts
    with [execution_], latest first.  [toISOString] renders a time in
    milliseconds as [Date.prototype.toISOString] does, the stored times
    being taken within the range of a [Date]. *)
Record Execution := mkExecution {
  executionNumber : string;
  result : string;
  timestamp : Z;
  date : string
}.

Definition isExecution (memory : Agent.Memory) : bool :=
  Js.startsWith (Agent.key memory) "execution_".

Definition byTimestampDescending (a b : Agent.Memory) : Z :=
  Agent.timestamp b - Agent.timestamp a.

Definition toExecution (toISOString : Z -> string) (memory : Agent.Memory) : Execution :=
  {| executionNumber := Js.replace "execution_" EmptyString (Agent.key memory);
     result := Agent.value memory;
     timestamp := Agent.timestamp memory;
     date := toISOString (Agent.timestamp memory * 1000) |}.

Definition executionsOf (toISOString : Z -> string) (memories : list Agent.Memory)
    : list Execution :=
  toExecution toISOString <$>
    Js.sort byTimestampDescending (List.filter isExecution memories).

Inductive ExecutionsResponse :=
| Executions (agentAddress : address) (totalExecutions : Z) (executions : list Execution)
| ExecutionsError (status : Z) (error : string).

Definition getExecutions (toISOString : Z -> string) (address_ : address) (w : World)
    : ExecutionsResponse :=
  match contracts w !! address_ with
  | Some s =>
      Executions address_ (Agent.executionCount s)
        (executionsOf toISOString (Agent.getAllMemories s))
  | None => ExecutionsError 500 "no contract at this address"
  end.

End AgentXAPI.

(** ** utils/AgentXUtils.js *)

Module AgentXUtils.

(** What [getAllAgents(offset, limit)] returns. *)
Record Page := mkPage {
  agents : list address;
  totalCount : Z;
  hasMore : bool
}.

(** The two contract calls of [getAllAgents] and the object built from
    them, with the factory loaded and the ledger in reach; a revert of
    [getAgents] is thrown on to the caller. *)
Definition getAllAgents (offset limit : Z) (f : AgentFactory.State) : Result Page :=
  let totalCount := AgentFactory.getAgentCount f in
  match AgentFactory.getAgents offset limit f with
  | Ok agents =>
      Ok {| agents := agents;
            totalCount := totalCount;
            hasMore := offset + Z.of_nat (length agents) <? totalCount |}
  | Reverted r => Reverted r
  end.

End AgentXUtils.

(** ** The command-line menu *)

Module AgentXCLI.

(** The line "Last Execution" of [viewAgentDetails]: a date, or the word
    "Never" when the recorded time is not positive. *)
Inductive LastExecution :=
| Never
| ExecutedAt (seconds : Z).

Definition lastExecutionLine (agentInfo : Agent.Info) : LastExecution :=
  if Agent.lastExecution agentInfo >? 0
  then ExecutedAt (Agent.lastExecution agentInfo)
  else Never.

End AgentXCLI.

(** ** Concrete ledgers and surroundings, used to exercise the statements *)

Module Scenario.

Import Ledger.

(** A registry holding five ids. *)
Definition five : AgentFactory.State :=
  {| AgentFactory.self := 900;
     AgentFactory.agents := [101; 102; 103; 104; 105];
     AgentFactory.userAgents := ∅;
     AgentFactory.isAgent := ∅ |}.

(** A factory at address 900 and two agents that account 7 registered at
    times 1000 and 1001. *)
Definition fleet : World :=
  createAgent (mkMsg 7 1001) 102 "report the gas price"
    (createAgent (mkMsg 7 1000) 101 "watch the chain"
       (mkWorld (AgentFactory.deploy 900) ∅)).

(** Nothing fails and the completion service always answers. *)
Definition calm : AgentExecutor.Surroundings :=
  {| AgentExecutor.currentTime := 5000;
     AgentExecutor.isoString := "1970-01-01T01:23:20.000Z";
     AgentExecutor.responseBlock := 5001;
     AgentExecutor.memoryBlock := 5002;
     AgentExecutor.completion := fun _ => Some "all quiet";
     AgentExecutor.unavailable := fun _ => false |}.






Definition envCalm : AgentExecutor.Env :=
  {| AgentExecutor.wallet := 7;
     AgentExecutor.registryDown := fun _ => false;
     AgentExecutor.around := fun _ => calm |}.

(** The fleet after its owner switched agent 101 off at time 1100. *)
Definition dormant : World :=
  setContract fleet 101
    (Agent.transact (mkMsg 7 1100) (Agent.CallSetActive false)
       (Agent.constructor (mkMsg 900 1000) 7 "watch the chain")).


(** A monitor that reads and writes without trouble at time [4000]. *)
Definition watch : AgentMonitor.Env :=
  {| AgentMonitor.currentTime := 4000;
     AgentMonitor.registryDown := false;
     AgentMonitor.agentDown := fun _ => false;
     AgentMonitor.writeFails := false |}.

(** The data point number [i], taken at time [30 * i]. *)
Definition point (i : nat) : AgentMonitor.Env * AgentMonitor.Sample :=
  (watch, AgentMonitor.mkSample (30 * Z.of_nat i) 2 2 0 2).

(** One data point more than the history keeps. *)
Definition thousandAndOne : list (AgentMonitor.Env * AgentMonitor.Sample) :=
  point <$> seq 0 1001.

(** Texts that are not ASCII, as the bytes of their UTF-8 form: a
    no-break space (U+00A0), an ideographic space (U+3000), an e with
    acute accent (U+00E9) and an emoji above U+FFFF (U+1F600). *)
Definition nbsp : string :=
  String (ascii_of_nat 194) (String (ascii_of_nat 160) EmptyString).

Definition ideographicSpace : string :=
  String (ascii_of_nat 227)
    (String (ascii_of_nat 128) (String (ascii_of_nat 128) EmptyString)).

Definition eAcute : string :=
  String (ascii_of_nat 195) (String (ascii_of_nat 169) EmptyString).

Definition grin : string :=
  String (ascii_of_nat 240)
    (String (ascii_of_nat 159)
       (String (ascii_of_nat 152) (String (ascii_of_nat 128) EmptyString))).

(** A goal of white space that is not ASCII throughout. *)
Definition wideBlanks : string := nbsp +:+ " " +:+ ideographicSpace.

(** A completion of 201 accented letters, and one of a letter and 100
    emoji, whose 200th code unit is the first half of the last emoji. *)
Definition accents : string := Js.join (replicate 201 eAcute).

Definition grins : string := "a" +:+ Js.join (replicate 100 grin).

Definition envAccents : AgentExecutor.Env :=
  {| AgentExecutor.wallet := 7;
     AgentExecutor.registryDown := fun _ => false;
     AgentExecutor.around := fun _ =>
       {| AgentExecutor.currentTime := 5000;
          AgentExecutor.isoString := "1970-01-01T01:23:20.000Z";
          AgentExecutor.responseBlock := 5001;
          AgentExecutor.memoryBlock := 5002;
          AgentExecutor.completion := fun _ => Some accents;
          AgentExecutor.unavailable := fun _ => false |} |}.

Definition envGrins : AgentExecutor.Env :=
  {| AgentExecutor.wallet := 7;
     AgentExecutor.registryDown := fun _ => false;
     AgentExecutor.around := fun _ =>
       {| AgentExecutor.currentTime := 5000;
          AgentExecutor.isoString := "1970-01-01T01:23:20.000Z";
          AgentExecutor.responseBlock := 5001;
          AgentExecutor.memoryBlock := 5002;
          AgentExecutor.completion := fun _ => Some grins;
          AgentExecutor.unavailable := fun _ => false |} |}.

(** Agent 101 as the factory created it. *)
Definition newborn : Agent.State :=
  Agent.constructor (mkMsg 900 1000) 7 "watch the chain".

(** Transactions sent to agent 101 by accounts 8 and 9, which are neither
    its owner nor the factory. *)
Definition meddling : list (Msg * Agent.Call) :=
  [(mkMsg 8 1100, Agent.CallUpdateGoal "mine now");
   (mkMsg 8 1200, Agent.CallStoreResponse "forged");
   (mkMsg 9 1300, Agent.CallStoreMemory "k" "v");
   (mkMsg 9 1400, Agent.CallSetActive false);
   (mkMsg 9 1500, Agent.CallTransferOwnership 9)].

(** A stretch of the agent's life: its owner stores two keys, one of them
    twice, commits a result, a stranger tries to, and the owner hands the
    agent to account 8. *)
Definition busy : list (Msg * Agent.Call) :=
  [(mkMsg 7 1100, Agent.CallStoreMemory "a" "1");
   (mkMsg 7 1200, Agent.CallStoreResponse "r1");
   (mkMsg 7 1300, Agent.CallStoreMemory "b" "2");
   (mkMsg 7 1400, Agent.CallStoreMemory "a" "3");
   (mkMsg 8 1500, Agent.CallStoreResponse "forged");
   (mkMsg 7 1600, Agent.CallTransferOwnership 8)].

(** The two registrations behind [fleet], and a third by account 8. *)
Definition threeRegistrations : list Registration :=
  [mkRegistration (mkMsg 7 1000) 101 "watch the chain";
   mkRegistration (mkMsg 7 1001) 102 "report the gas price";
   mkRegistration (mkMsg 8 1002) 103 "count the blocks"].

(** An executor that runs with the wallet of account 5, which owns no
    agent of the fleet. *)
Definition envForeign : AgentExecutor.Env :=
  {| AgentExecutor.wallet := 5;
     AgentExecutor.registryDown := fun _ => false;
     AgentExecutor.around := fun _ => calm |}.

(** The surroundings of [calm] half an hour later. *)
Definition envLater : AgentExecutor.Env :=
  {| AgentExecutor.wallet := 7;
     AgentExecutor.registryDown := fun _ => false;
     AgentExecutor.around := fun _ =>
       {| AgentExecutor.currentTime := 6800;
          AgentExecutor.isoString := "1970-01-01T01:53:20.000Z";
          AgentExecutor.responseBlock := 6801;
          AgentExecutor.memoryBlock := 6802;
          AgentExecutor.completion := fun _ => Some "still quiet";
          AgentExecutor.unavailable := fun _ => false |} |}.

(** Three data points: the first more than a day older than the last, the
    second more than an hour older. *)
Definition logged : list AgentMonitor.Sample :=
  [AgentMonitor.mkSample 100 2 2 0 2;
   AgentMonitor.mkSample 4000 2 1 3 1;
   AgentMonitor.mkSample 90000 3 3 5 2].

(** A monitor that cannot reach the registry. *)
Definition blind : AgentMonitor.Env :=
  {| AgentMonitor.currentTime := 4000;
     AgentMonitor.registryDown := true;
     AgentMonitor.agentDown := fun _ => false;
     AgentMonitor.writeFails := false |}.

(** Memories as an agent may hold them after three executions and two
    entries of its owner's, one of them written between two executions. *)
Definition diary : list Agent.Memory :=
  [Agent.mkMemory "execution_0" "first" 5002;
   Agent.mkMemory "mood" "fine" 6000;
   Agent.mkMemory "execution_1" "second" 9002;
   Agent.mkMemory "executions" "not one of them" 9500;
   Agent.mkMemory "execution_2" "third" 13002].

End Scenario.

(** * Properties *)

(** ** The Agent record *)

Module AgentFacts.

Import Agent.

Section Loops.

Variables (_key _value : string) (now : Z) (ms : list Memory).

(** A key that is nowhere in the array sends the search loop to its end. *)
Lemma storeMemory_loop_absent (todo i : nat) :
  (forall j e, ms !! j = Some e -> key e <> _key) ->
  storeMemory_loop todo i _key _value now ms = (ms, false).
Proof.
  intros Habs. revert i.
  induction todo as [|todo IH]; intros i; simpl; [reflexivity|].
  destruct (ms !! i) as [e|] eqn:He; [|reflexivity].
  destruct (decide (key e = _key)) as [Heq|_]; [|apply IH].
  exfalso. exact (Habs i e He Heq).
Qed.

(** [getMemory]'s loop stops at the first position that holds the key. *)
Lemma getMemory_loop_first (todo i0 i : nat) (e : Memory) :
  (i0 <= i < i0 + todo)%nat ->
  ms !! i = Some e -> key e = _key ->
  (forall j e', (i0 <= j < i)%nat -> ms !! j = Some e' -> key e' <> _key) ->
  getMemory_loop todo i0 _key ms = (value e, timestamp e).
Proof.
  revert i0.
  induction todo as [|todo IH]; intros i0 Hrange He Hk Hfirst; [lia|].
  simpl.
  destruct (decide (i0 = i)) as [->|Hne].
  - rewrite He. destruct (decide (key e = _key)); [reflexivity|contradiction].
  - assert (Hlt : (i0 < length ms)%nat).
    { apply lookup_lt_Some in He. lia. }
    destruct (lookup_lt_is_Some_2 ms i0 Hlt) as [e0 He0].
    rewrite He0.
    destruct (decide (key e0 = _key)) as [Hk0|_].
    + exfalso. apply (Hfirst i0 e0); [lia|assumption|assumption].
    + apply IH; [lia|assumption|assumption|].
      intros j e' Hj. apply Hfirst. lia.
Qed.

Lemma getMemory_loop_absent (todo i : nat) :
  (forall j e, ms !! j = Some e -> key e <> _key) ->
  getMemory_loop todo i _key ms = (EmptyString, 0).
Proof.
  intros Habs. revert i.
  induction todo as [|todo IH]; intros i; simpl; [reflexivity|].
  destruct (ms !! i) as [e|] eqn:He; [|reflexivity].
  destruct (decide (key e = _key)) as [Heq|_]; [|apply IH].
  exfalso. exact (Habs i e He Heq).
Qed.

End Loops.

(** *** The index mapping and the array stay in step *)

Lemma readIndex_setMemories (s : State) ms ix k :
  readIndex (setMemories s ms ix) k = default 0%nat (ix !! k).
Proof. reflexivity. Qed.

Lemma index_agrees_NoDup (s : State) :
  index_agrees s -> NoDup (key <$> memories s).
Proof.
  intros Hinv. apply NoDup_alt. intros i j k Hi Hj.
  rewrite list_lookup_fmap in Hi. rewrite list_lookup_fmap in Hj.
  destruct (memories s !! i) as [ei|] eqn:Ei; [|discriminate].
  destruct (memories s !! j) as [ej|] eqn:Ej; [|discriminate].
  simpl in Hi, Hj. injection Hi as Hi. injection Hj as Hj.
  assert (Hsi : readIndex s k = S i) by (apply Hinv; eauto).
  assert (Hsj : readIndex s k = S j) by (apply Hinv; eauto).
  congruence.
Qed.

Lemma index_agrees_absent (s : State) (k : string) :
  index_agrees s -> readIndex s k = 0%nat ->
  forall j e, memories s !! j = Some e -> key e <> k.
Proof.
  intros Hinv H0 j e He Hk.
  assert (readIndex s k = S j) by (apply Hinv; eauto). congruence.
Qed.

Lemma storeMemory_is_upsert (m : Msg) (k v : string) (s : State) :
  index_agrees s ->
  onlyOwnerOrFactory m s = true ->
  storeMemory m k v s = Ok (upsert m k v s).
Proof.
  intros Hinv Hauth. unfold storeMemory, upsert. rewrite Hauth.
  destruct (readIndex s k) as [|i] eqn:Hidx; simpl.
  - pose proof (index_agrees_absent s k Hinv Hidx) as Habs.
    destruct (0 <? length (memories s))%nat; [|reflexivity].
    rewrite (storeMemory_loop_absent _ _ _ _ _ _ Habs). reflexivity.
  - destruct (proj1 (Hinv k i) Hidx) as (e & He & Hk).
    rewrite Nat.sub_0_r, He. unfold overwrite. rewrite Hk. reflexivity.
Qed.

Lemma index_agrees_upsert (m : Msg) (k v : string) (s : State) :
  index_agrees s -> index_agrees (upsert m k v s).
Proof.
  intros Hinv k' i'. unfold upsert.
  destruct (readIndex s k) as [|i] eqn:Hidx.
  - (* push *)
    unfold pushMemory. rewrite readIndex_setMemories. simpl memories.
    rewrite length_app, Nat.add_comm. simpl length.
    pose proof (index_agrees_absent s k Hinv Hidx) as Habs.
    destruct (decide (k = k')) as [<-|Hne].
    + rewrite lookup_insert_eq. simpl. split.
      * intros [= <-]. exists (mkMemory k v (block_timestamp m)). split; [|reflexivity].
        apply list_lookup_middle. reflexivity.
      * intros (e & He & Hk). f_equal.
        apply lookup_snoc_Some in He as [[Hlt He]|[Hlen _]]; [|congruence].
        exfalso. exact (Habs i' e He Hk).
    + rewrite lookup_insert_ne by assumption.
      change (default 0%nat (memoryIndex s !! k')) with (readIndex s k').
      rewrite (Hinv k' i'). split.
      * intros (e & He & Hk). exists e. split; [|assumption].
        by apply lookup_app_l_Some.
      * intros (e & He & Hk). exists e. split; [|assumption].
        apply lookup_snoc_Some in He as [[_ He]|[_ <-]]; [assumption|].
        simpl in Hk. congruence.
  - (* update in place *)
    rewrite readIndex_setMemories. simpl memories.
    change (default 0%nat (memoryIndex s !! k')) with (readIndex s k').
    rewrite (Hinv k' i').
    destruct (proj1 (Hinv k i) Hidx) as (e0 & He0 & Hk0).
    pose proof (lookup_lt_Some _ _ _ He0) as Hlt.
    destruct (decide (i = i')) as [<-|Hne].
    + rewrite list_lookup_insert_eq by assumption. split.
      * intros (e & He & Hk). eexists; split; [reflexivity|]. simpl. congruence.
      * intros (e & [= <-] & Hk). simpl in Hk. exists e0. split; congruence.
    + rewrite list_lookup_insert_ne by assumption. reflexivity.
  Qed.

Lemma index_agrees_constructor (m : Msg) (o : address) (g : string) :
  index_agrees (constructor m o g).
Proof.
  intros k i. unfold readIndex. simpl. rewrite lookup_empty. simpl. split.
  - discriminate.
  - intros (e & He & _). discriminate.
Qed.

Lemma index_agrees_same (s s' : State) :
  same_memories s s' -> index_agrees s -> index_agrees s'.
Proof.
  intros [Hm Hi] Hinv k i. unfold readIndex. rewrite Hm, Hi. apply Hinv.
Qed.

Lemma updateGoal_same m g s s' : updateGoal m g s = Ok s' -> same_memories s s'.
Proof.
  unfold updateGoal. destruct (onlyOwner m s); [|discriminate].
  intros [= <-]. split; reflexivity.
Qed.

Lemma storeResponse_same m r s s' : storeResponse m r s = Ok s' -> same_memories s s'.
Proof.
  unfold storeResponse. destruct (onlyOwnerOrFactory m s); [|discriminate].
  destruct (checked_add _ _); [|discriminate].
  intros [= <-]. split; reflexivity.
Qed.

Lemma setActive_same m b s s' : setActive m b s = Ok s' -> same_memories s s'.
Proof.
  unfold setActive. destruct (onlyOwner m s); [|discriminate].
  intros [= <-]. split; reflexivity.
Qed.

Lemma transferOwnership_same m a s s' :
  transferOwnership m a s = Ok s' -> same_memories s s'.
Proof.
  unfold transferOwnership. destruct (onlyOwner m s); [|discriminate].
  destruct (a =? 0); [discriminate|].
  intros [= <-]. split; reflexivity.
Qed.

Lemma index_agrees_dispatch (m : Msg) (c : Call) (s s' : State) :
  index_agrees s -> dispatch m c s = Ok s' -> index_agrees s'.
Proof.
  intros Hinv. destruct c as [g|r|k v|b|a]; simpl; intros Hcall.
  - eapply index_agrees_same; [eapply updateGoal_same|]; eassumption.
  - eapply index_agrees_same; [eapply storeResponse_same|]; eassumption.
  - destruct (onlyOwnerOrFactory m s) eqn:Hauth.
    + rewrite (storeMemory_is_upsert m k v s Hinv Hauth) in Hcall.
      injection Hcall as <-. by apply index_agrees_upsert.
    + unfold storeMemory in Hcall. rewrite Hauth in Hcall. discriminate.
  - eapply index_agrees_same; [eapply setActive_same|]; eassumption.
  - eapply index_agrees_same; [eapply transferOwnership_same|]; eassumption.
Qed.

Lemma index_agrees_transact (m : Msg) (c : Call) (s : State) :
  index_agrees s -> index_agrees (transact m c s).
Proof.
  intros Hinv. unfold transact.
  destruct (dispatch m c s) as [s'|r] eqn:Hcall; [|assumption].
  eapply index_agrees_dispatch; eassumption.
Qed.

Lemma history_index_agrees (t : Z) (s : State) :
  history t s -> index_agrees s.
Proof.
  induction 1 as [m o g|t s m c _ IH _].
  - apply index_agrees_constructor.
  - by apply index_agrees_transact.
Qed.


(** *** Time on the ledger *)

Lemma dispatch_lastExecutionTime (m : Msg) (c : Call) (s s' : State) :
  dispatch m c s = Ok s' ->
  lastExecutionTime s' = lastExecutionTime s \/
  lastExecutionTime s' = block_timestamp m.
Proof.
  destruct c as [g|r|k v|b|a]; simpl.
  - unfold updateGoal. destruct (onlyOwner m s); [|discriminate].
    intros [= <-]. by left.
  - unfold storeResponse. destruct (onlyOwnerOrFactory m s); [|discriminate].
    destruct (checked_add _ _); [|discriminate].
    intros [= <-]. by right.
  - unfold storeMemory. destruct (onlyOwnerOrFactory m s); [|discriminate].
    destruct (_ && _).
    + destruct (storeMemory_loop _ _ _ _ _ _) as [ms []]; intros [= <-]; by left.
    + destruct (0 <? _)%nat.
      * destruct (memories s !! _); [|discriminate]. intros [= <-]. by left.
      * intros [= <-]. by left.
  - unfold setActive. destruct (onlyOwner m s); [|discriminate].
    intros [= <-]. by left.
  - unfold transferOwnership. destruct (onlyOwner m s); [|discriminate].
    destruct (a =? 0); [discriminate|]. intros [= <-]. by left.
Qed.

(** The recorded execution time never lies ahead of the chain. *)
Lemma history_lastExecutionTime (t : Z) (s : State) :
  history t s -> lastExecutionTime s <= t.
Proof.
  induction 1 as [m o g|t s m c _ IH Hle]; [simpl; lia|].
  unfold transact. destruct (dispatch m c s) as [s'|r] eqn:Hcall; [|lia].
  destruct (dispatch_lastExecutionTime m c s s' Hcall) as [-> | ->]; lia.
Qed.

(** *** Reading back what was stored *)

(** With the index in step, the one entry that carries a key is the one
    [getMemory] returns. *)
Lemma getMemory_unique (s : State) (k : string) (i : nat) (e : Memory) :
  index_agrees s ->
  memories s !! i = Some e -> key e = k ->
  getMemory k s = (value e, timestamp e).
Proof.
  intros Hinv He Hk. unfold getMemory.
  apply (getMemory_loop_first k (memories s) _ 0%nat i e); try assumption.
  - apply lookup_lt_Some in He. lia.
  - intros j e' [_ Hj] He' Hk'.
    assert (readIndex s k = S i) by (apply Hinv; eauto).
    assert (readIndex s k = S j) by (apply Hinv; eauto).
    lia.
Qed.

(** The entry of a key always shows the latest value and timestamp stored
    under it. *)
Lemma storeMemory_then_getMemory (t : Z) (s s' : State) (m : Msg) (k v : string) :
  history t s ->
  storeMemory m k v s = Ok s' ->
  getMemory k s' = (v, block_timestamp m).
Proof.
  intros Hhist Hcall. pose proof (history_index_agrees t s Hhist) as Hinv.
  destruct (onlyOwnerOrFactory m s) eqn:Hauth;
    [|unfold storeMemory in Hcall; rewrite Hauth in Hcall; discriminate].
  rewrite (storeMemory_is_upsert m k v s Hinv Hauth) in Hcall.
  injection Hcall as <-.
  pose proof (index_agrees_upsert m k v s Hinv) as Hinv'.
  unfold upsert in *. destruct (readIndex s k) as [|i] eqn:Hidx.
  - apply (getMemory_unique _ k (length (memories s))
             (mkMemory k v (block_timestamp m)) Hinv'); [|reflexivity].
    simpl. by apply list_lookup_middle.
  - destruct (proj1 (Hinv k i) Hidx) as (e & He & _).
    apply (getMemory_unique _ k i (mkMemory k v (block_timestamp m)) Hinv');
      [|reflexivity].
    simpl. apply list_lookup_insert_eq. by eapply lookup_lt_Some.
Qed.

End AgentFacts.

Module AgentClaims.

Import Agent AgentFacts.

(** A short ledger history: factory [900] creates an agent for owner [7]
    at time [1000], and the owner stores the key [k] at time [1010]. *)
Lemma history_agent0 :
  history 1000 (constructor (mkMsg 900 1000) 7 "watch the chain").
Proof. exact (history_created (mkMsg 900 1000) 7 "watch the chain"). Qed.

Lemma history_agent1 :
  history 1010
    (transact (mkMsg 7 1010) (CallStoreMemory "k" "v1")
       (constructor (mkMsg 900 1000) 7 "watch the chain")).
Proof.
  apply (history_transact 1000 _ (mkMsg 7 1010)); [apply history_agent0|simpl; lia].
Qed.

(** C1.  On every state an agent can reach on the ledger the keys of
    [memories] are pairwise distinct, and an authorised [storeMemory]
    succeeds, keeps them distinct, overwrites value and timestamp at the
    position of an existing key, and appends an entry for a new key. *)
Theorem storeMemory_upsert (t : Z) (s : State) :
  history t s ->
  NoDup (key <$> memories s) /\
  forall (m : Msg) (k v : string),
    onlyOwnerOrFactory m s = true ->
    exists s',
      storeMemory m k v s = Ok s' /\
      NoDup (key <$> memories s') /\
      (forall i e, memories s !! i = Some e -> key e = k ->
         memories s' = <[i := mkMemory k v (block_timestamp m)]> (memories s)) /\
      ((forall e, e ∈ memories s -> key e <> k) ->
         memories s' = memories s ++ [mkMemory k v (block_timestamp m)]).
Proof.
  intros Hhist. pose proof (history_index_agrees t s Hhist) as Hinv.
  split; [by apply index_agrees_NoDup|].
  intros m k v Hauth. exists (upsert m k v s).
  split; [by apply storeMemory_is_upsert|].
  split; [apply index_agrees_NoDup; by apply index_agrees_upsert|].
  split.
  - intros i e He Hk. unfold upsert.
    assert (Hidx : readIndex s k = S i) by (apply Hinv; eauto).
    rewrite Hidx. reflexivity.
  - intros Habs. unfold upsert.
    destruct (readIndex s k) as [|i] eqn:Hidx; [reflexivity|].
    destruct (proj1 (Hinv k i) Hidx) as (e & He & Hk).
    exfalso. apply (Habs e); [|assumption].
    apply list_elem_of_lookup. eauto.
Qed.

(** The second store of the same key on the history above. *)
Lemma storeMemory_upsert_witness :
  exists s',
    storeMemory (mkMsg 7 1020) "k" "v2"
      (transact (mkMsg 7 1010) (CallStoreMemory "k" "v1")
         (constructor (mkMsg 900 1000) 7 "watch the chain")) = Ok s' /\
    memories s' = [mkMemory "k" "v2" 1020].
Proof.
  destruct (proj2 (storeMemory_upsert 1010 _ history_agent1)
              (mkMsg 7 1020) "k" "v2" eq_refl)
    as (s' & Hcall & _ & Hupd & _).
  exists s'. split; [exact Hcall|].
  exact (Hupd 0%nat (mkMemory "k" "v1" 1010) eq_refl eq_refl).
Defined.

(** C4.  A [storeResponse] that succeeds records the text, stamps
    [lastExecutionTime] with the block time, which is never earlier than
    the stamp it replaces, adds exactly one to [executionCount] and does
    not touch [memories]. *)
Theorem storeResponse_commit (t : Z) (s s' : State) (m : Msg) (text : string) :
  history t s ->
  t <= block_timestamp m ->
  storeResponse m text s = Ok s' ->
  lastResponse s' = text /\
  lastExecutionTime s' = block_timestamp m /\
  lastExecutionTime s <= lastExecutionTime s' /\
  executionCount s' = executionCount s + 1 /\
  memories s' = memories s.
Proof.
  intros Hhist Hle Hcall.
  pose proof (history_lastExecutionTime t s Hhist) as Hpast.
  unfold storeResponse in Hcall.
  destruct (onlyOwnerOrFactory m s); [|discriminate].
  unfold checked_add in Hcall.
  destruct (executionCount s + 1 <=? MAX_UINT256); [|discriminate].
  injection Hcall as <-. simpl. repeat split; lia.
Qed.

Lemma storeResponse_commit_witness :
  let s := constructor (mkMsg 900 1000) 7 "watch the chain" in
  exists s',
    storeResponse (mkMsg 7 1500) "all quiet" s = Ok s' /\
    lastResponse s' = "all quiet" /\
    lastExecutionTime s' = 1500 /\
    lastExecutionTime s <= lastExecutionTime s' /\
    executionCount s' = 1 /\
    memories s' = [].
Proof.
  eexists. split; [reflexivity|].
  apply (storeResponse_commit 1000 _ _ (mkMsg 7 1500) "all quiet" history_agent0).
  - simpl. lia.
  - reflexivity.
Defined.

(** C10.  [getMemory] answers every key: the pair of the empty string
    and zero when no entry carries the key, and otherwise the value and
    timestamp of the first entry that does. *)
Theorem getMemory_total (s : State) (k : string) :
  ((forall e, e ∈ memories s -> key e <> k) ->
     getMemory k s = (EmptyString, 0)) /\
  (forall i e,
     memories s !! i = Some e -> key e = k ->
     (forall j e', (j < i)%nat -> memories s !! j = Some e' -> key e' <> k) ->
     getMemory k s = (value e, timestamp e)).
Proof.
  split.
  - intros Habs. apply getMemory_loop_absent.
    intros j e He. apply Habs. apply list_elem_of_lookup. eauto.
  - intros i e He Hk Hfirst. unfold getMemory.
    apply (getMemory_loop_first k (memories s) _ 0%nat i e); try assumption.
    + apply lookup_lt_Some in He. lia.
    + intros j e' [_ Hj]. by apply Hfirst.
Qed.

(** An array as no run of the contract builds it, with a key twice: the
    first of the two entries answers. *)
Lemma getMemory_total_witness :
  let s := setMemories (constructor (mkMsg 900 1000) 7 "g")
             [mkMemory "a" "1" 10; mkMemory "k" "2" 20; mkMemory "k" "3" 30] ∅ in
  getMemory "zz" s = (EmptyString, 0) /\ getMemory "k" s = ("2", 20).
Proof.
  intros s. split.
  - apply (proj1 (getMemory_total s "zz")).
    intros e He. vm_compute in He.
    repeat (apply elem_of_cons in He as [->|He]; [discriminate|]).
    by apply elem_of_nil in He.
  - apply (proj2 (getMemory_total s "k") 1%nat (mkMemory "k" "2" 20)).
    + reflexivity.
    + reflexivity.
    + intros j e' Hj He'. assert (j = 0%nat) as -> by lia.
      injection He' as <-. discriminate.
Defined.

End AgentClaims.

(** ** The registry *)

Module RegistryFacts.

Import AgentFactory.

(** The copy loop fills [result] from position [i - offset] on with the
    next [todo] entries of the source. *)
Lemma getAgents_loop_copy (offset : nat) (src : list address) (todo : nat) :
  forall (i : nat) (result : list address),
    (offset <= i)%nat ->
    (i + todo <= length src)%nat ->
    (i - offset + todo <= length result)%nat ->
    getAgents_loop todo i offset src result =
      Ok (take (i - offset) result ++ take todo (drop i src)
            ++ drop (i - offset + todo) result).
Proof.
  induction todo as [|todo IH]; intros i result Hoff Hsrc Hres; simpl.
  - rewrite Nat.add_0_r. by rewrite take_drop.
  - destruct (lookup_lt_is_Some_2 src i ltac:(lia)) as [a Ha].
    rewrite Ha.
    rewrite IH by (rewrite ?length_insert; lia).
    f_equal.
    replace (S i - offset)%nat with (S (i - offset)) by lia.
    rewrite (take_S_r _ _ a) by (apply list_lookup_insert_eq; lia).
    rewrite take_insert_ge by lia.
    rewrite drop_insert_lt by lia.
    rewrite (drop_S src a i Ha). simpl.
    rewrite <- app_assoc. simpl.
    replace (i - offset + S todo)%nat with (S (i - offset + todo)) by lia.
    reflexivity.
Qed.

Lemma getAgents_in_range (f : State) (offset limit : Z) :
  0 <= offset < getAgentCount f ->
  0 <= limit ->
  offset + limit <= MAX_UINT256 ->
  getAgents offset limit f =
    Ok (take (Z.to_nat limit) (drop (Z.to_nat offset) (agents f))).
Proof.
  unfold getAgentCount, getAgents, checked_add. intros Hoff Hlim Hsum.
  destruct (Z.ltb_spec offset (Z.of_nat (length (agents f)))) as [_|?]; [|lia].
  destruct (Z.leb_spec (offset + limit) MAX_UINT256) as [_|?]; [|lia].
  set (len := Z.of_nat (length (agents f))) in *.
  set (end_ := if offset + limit >? len then len else offset + limit).
  assert (Hend : end_ = Z.min (offset + limit) len).
  { unfold end_. destruct (Z.gtb_spec (offset + limit) len); lia. }
  rewrite getAgents_loop_copy; [|lia|lia|rewrite length_replicate; lia].
  rewrite Nat.sub_diag. simpl.
  rewrite drop_replicate, Nat.sub_diag. simpl. rewrite app_nil_r.
  f_equal.
  destruct (Z.le_gt_cases (offset + limit) len) as [Hle|Hgt].
  - f_equal. lia.
  - replace (Z.to_nat (end_ - offset)) with (length (drop (Z.to_nat offset) (agents f)))
      by (rewrite length_drop; lia).
    rewrite firstn_all. symmetry. apply take_ge. rewrite length_drop. lia.
Qed.

End RegistryFacts.

Module RegistryClaims.

Import AgentFactory RegistryFacts Scenario.

(** C2, as the code has it.  [getAgents] reverts with "Offset out of
    bounds" whenever [offset] is not below the number of ids, which
    includes every request against an empty registry; for an [offset]
    below it and [offset + limit] within [uint256] it returns the
    [min(limit, total - offset)] ids that start at [offset]. *)
Theorem getAgents_page (f : State) (offset limit : Z) :
  is_uint256 offset ->
  is_uint256 limit ->
  (getAgentCount f <= offset ->
     getAgents offset limit f = Reverted OffsetOutOfBounds /\
     kind OffsetOutOfBounds = OutOfRange) /\
  (offset < getAgentCount f ->
   offset + limit <= MAX_UINT256 ->
     exists page,
       getAgents offset limit f = Ok page /\
       page = take (Z.to_nat limit) (drop (Z.to_nat offset) (agents f)) /\
       Z.of_nat (length page) = Z.min limit (getAgentCount f - offset)) /\
  (offset < getAgentCount f ->
   MAX_UINT256 < offset + limit ->
     getAgents offset limit f = Reverted PanicOverflow).
Proof.
  intros [Hoff _] [Hlim _]. split; [|split].
  - intros Hout. split; [|reflexivity].
    unfold getAgents, getAgentCount in *.
    destruct (Z.ltb_spec offset (Z.of_nat (length (agents f)))); [lia|reflexivity].
  - intros Hin Hsum. eexists. split; [|split; [reflexivity|]].
    + apply getAgents_in_range; lia.
    + rewrite length_take, length_drop. unfold getAgentCount in *. lia.
  - intros Hin Hover. unfold getAgents, getAgentCount, checked_add in *.
    destruct (Z.ltb_spec offset (Z.of_nat (length (agents f)))); [|lia].
    destruct (Z.leb_spec (offset + limit) MAX_UINT256); [lia|reflexivity].
Qed.

Lemma getAgents_page_witness :
  getAgents 0 2 five = Ok [101; 102] /\
  getAgents 4 2 five = Ok [105] /\
  getAgents 5 2 five = Reverted OffsetOutOfBounds.
Proof.
  assert (H5 : forall z, 0 <= z <= 5 -> is_uint256 z).
  { intros z Hz. unfold is_uint256, MAX_UINT256. lia. }
  split; [|split].
  - destruct (proj1 (proj2 (getAgents_page five 0 2 (H5 0 ltac:(lia)) (H5 2 ltac:(lia)))))
      as (page & -> & -> & _); [reflexivity|unfold MAX_UINT256; lia|reflexivity].
  - destruct (proj1 (proj2 (getAgents_page five 4 2 (H5 4 ltac:(lia)) (H5 2 ltac:(lia)))))
      as (page & -> & -> & _); [reflexivity|unfold MAX_UINT256; lia|reflexivity].
  - apply (proj1 (getAgents_page five 5 2 (H5 5 ltac:(lia)) (H5 2 ltac:(lia)))).
    unfold getAgentCount, five. simpl. lia.
Defined.

(** C2 as it was stated fails twice: an empty registry answers offset 0
    with a revert, not with an empty page; and a page that starts inside
    the registry is not returned when [offset + limit] leaves [uint256]. *)
Lemma getAgents_empty_registry_reverts :
  getAgentCount (deploy 900) = 0 /\
  getAgents 0 10 (deploy 900) = Reverted OffsetOutOfBounds /\
  getAgentCount five = 5 /\
  getAgents 1 MAX_UINT256 five = Reverted PanicOverflow.
Proof. repeat split; reflexivity. Qed.

End RegistryClaims.

(** ** Strings as JavaScript sees them *)

Module JsFacts.

Import Js.

Lemma append_cons (c : ascii) (s1 s2 : string) :
  String c s1 +:+ s2 = String c (s1 +:+ s2).
Proof. reflexivity. Qed.

Lemma append_empty_r (s : string) : s +:+ EmptyString = s.
Proof. induction s as [|c s IH]; [done|]. by rewrite append_cons, IH. Qed.

Lemma append_assoc (s1 s2 s3 : string) : (s1 +:+ s2) +:+ s3 = s1 +:+ (s2 +:+ s3).
Proof. induction s1 as [|c s1 IH]; [done|]. by rewrite !append_cons, IH. Qed.

Lemma join_app (l1 l2 : list string) : join (l1 ++ l2) = join l1 +:+ join l2.
Proof.
  induction l1 as [|c l1 IH]; simpl; [done|].
  by rewrite IH, append_assoc.
Qed.

(** *** Cutting into code points loses nothing *)

Lemma join_chunks (more : nat) (current s : string) :
  join (chunks more current s) = current +:+ s.
Proof.
  revert more current. induction s as [|b s IH]; intros more current; simpl.
  - done.
  - destruct more as [|more]; simpl; rewrite IH; simpl; [done|].
    by rewrite append_assoc.
Qed.

Lemma join_codePoints (s : string) : join (codePoints s) = s.
Proof. destruct s as [|b s]; simpl; [done|]. by rewrite join_chunks. Qed.

Lemma append_not_empty (s1 s2 : string) : s1 <> EmptyString -> s1 +:+ s2 <> EmptyString.
Proof. by destruct s1. Qed.

Lemma chunks_not_empty (more : nat) (current s : string) :
  current <> EmptyString ->
  Forall (fun c => c <> EmptyString) (chunks more current s).
Proof.
  revert more current. induction s as [|b s IH]; intros more current Hne; simpl.
  - by constructor.
  - destruct more as [|more].
    + constructor; [done|]. by apply IH.
    + apply IH. by apply append_not_empty.
Qed.

Lemma codePoints_not_empty (s : string) :
  Forall (fun c => c <> EmptyString) (codePoints s).
Proof. destruct s as [|b s]; simpl; [constructor|]. by apply chunks_not_empty. Qed.

Lemma join_empty (l : list string) :
  Forall (fun c => c <> EmptyString) l -> join l = EmptyString -> l = [].
Proof.
  destruct l as [|c l]; [done|]. intros Hne%Forall_cons_1 Hjoin. exfalso.
  destruct Hne as [Hc _]. simpl in Hjoin. by destruct c.
Qed.

(** *** Trimming *)

Lemma dropWhile_all {A : Type} (f : A -> bool) (l : list A) :
  dropWhile f l = [] <-> Forall (fun x => f x = true) l.
Proof.
  induction l as [|x l IH]; simpl; [by split; [constructor|]|].
  destruct (f x) eqn:Hx.
  - rewrite IH. split; [by constructor|by intros [_ ?]%Forall_cons_1].
  - split; [done|]. intros [Hx' _]%Forall_cons_1. congruence.
Qed.

Lemma dropWhile_Forall {A : Type} (P : A -> Prop) (f : A -> bool) (l : list A) :
  Forall P l -> Forall P (dropWhile f l).
Proof.
  induction 1 as [|x l Hx Hl IH]; simpl; [constructor|].
  destruct (f x); [done|by constructor].
Qed.

(** What is left after dropping starts with an element that stays. *)
Lemma dropWhile_stops {A : Type} (f : A -> bool) (l : list A) :
  Forall (fun x => f x = true) (dropWhile f l) -> dropWhile f l = [].
Proof.
  induction l as [|x l IH]; simpl; [done|].
  destruct (f x) eqn:Hx; [done|].
  intros [Hx' _]%Forall_cons_1. congruence.
Qed.

(** [trim] leaves the empty string exactly of a string all of whose code
    points are white space. *)
Lemma trim_empty (s : string) :
  trim s = EmptyString <-> Forall (fun c => blank c = true) (codePoints s).
Proof.
  unfold trim. split.
  - intros Hjoin. apply join_empty in Hjoin.
    2:{ apply Forall_rev, dropWhile_Forall, Forall_rev, dropWhile_Forall.
        apply codePoints_not_empty. }
    apply (f_equal (@rev string)) in Hjoin. rewrite rev_involutive in Hjoin. simpl in Hjoin.
    apply dropWhile_all in Hjoin.
    apply Forall_rev in Hjoin. rewrite rev_involutive in Hjoin.
    by apply dropWhile_all, dropWhile_stops.
  - intros Hall. apply dropWhile_all in Hall. by rewrite Hall.
Qed.

Lemma trim_not_empty (s : string) :
  trim s <> EmptyString <-> Exists (fun c => blank c = false) (codePoints s).
Proof.
  rewrite trim_empty. induction (codePoints s) as [|c l IH].
  - split; [intros H; by destruct H|by intros H%Exists_nil].
  - rewrite Forall_cons, Exists_cons.
    destruct (blank c); [|split; [by left|by intros _ [[=] _]]].
    split.
    + intros H. right. apply IH. intros Hl. by apply H.
    + intros [[=]|Hex] [_ Hl]. by apply IH in Hex.
Qed.

(** *** Cutting at a number of code units *)

Lemma chunks_app (c current s : string) :
  chunks (String.length c) current (c +:+ s) = (current +:+ c) :: codePoints s.
Proof.
  revert current. induction c as [|b c IH]; intros current; simpl.
  - rewrite append_empty_r. by destruct s.
  - by rewrite IH, append_assoc.
Qed.

Lemma width_pos (b : ascii) : (1 <= width b)%nat.
Proof. unfold width. repeat case_match; lia. Qed.

Lemma codePoints_complete (c s : string) :
  complete c -> codePoints (c +:+ s) = c :: codePoints s.
Proof.
  destruct c as [|b c]; [done|]. simpl. intros Hlen.
  replace (width b - 1)%nat with (String.length c) by lia.
  by rewrite chunks_app.
Qed.

Lemma codePoints_join (l : list string) (s : string) :
  Forall complete l -> codePoints (join l +:+ s) = l ++ codePoints s.
Proof.
  induction 1 as [|c l Hc Hl IH]; simpl; [done|].
  by rewrite append_assoc, codePoints_complete, IH.
Qed.

(** Every code point but the last has all its bytes. *)
Lemma chunks_complete (more : nat) (current s : string) :
  match current with
  | EmptyString => False
  | String b _ => (String.length current + more)%nat = width b
  end ->
  exists init final, chunks more current s = init ++ [final] /\ Forall complete init.
Proof.
  revert more current. induction s as [|a s IH]; intros more current Hcur; simpl.
  - by exists [], current.
  - destruct more as [|more].
    + destruct (IH (width a - 1)%nat (String a EmptyString)) as (init & final & -> & Hall).
      { simpl. pose proof (width_pos a). lia. }
      exists (current :: init), final. split; [done|].
      constructor; [|done]. destruct current as [|b r]; [done|]. simpl in *. lia.
    + apply IH. destruct current as [|b r]; [done|]. simpl in *.
      assert (Hlen : forall r, String.length (r +:+ String a EmptyString)
                               = S (String.length r)).
      { clear. induction r as [|c r IH]; simpl; [done|]. by rewrite IH. }
      rewrite Hlen. lia.
Qed.

Lemma codePoints_init (s : string) :
  codePoints s = [] \/
  exists init final, codePoints s = init ++ [final] /\ Forall complete init.
Proof.
  destruct s as [|b s]; [by left|]. right. simpl.
  apply chunks_complete. simpl. pose proof (width_pos b). lia.
Qed.

(** The first code points of a string, put together, are cut into
    themselves again. *)
Lemma codePoints_prefix (s : string) (l : list string) :
  l `prefix_of` codePoints s -> codePoints (join l) = l.
Proof.
  intros [k Hk]. destruct k as [|x k _] using rev_ind.
  - rewrite app_nil_r in Hk. subst l. by rewrite join_codePoints.
  - destruct (codePoints_init s) as [Hnil|(init & final & Hcut & Hall)].
    { rewrite Hnil in Hk. by destruct l. }
    rewrite Hcut, app_assoc in Hk. apply app_inj_tail in Hk as [-> _].
    apply Forall_app in Hall as [Hl _].
    rewrite <- (append_empty_r (join l)), codePoints_join by done.
    simpl. apply app_nil_r.
Qed.

Lemma units_cases (c : string) : units c = 1%nat \/ units c = 2%nat.
Proof. unfold units. case_match; auto. Qed.

Lemma takeUnits_cut (n : nat) (l taken : list string) :
  takeUnits n l = Some taken ->
  taken `prefix_of` l /\
  sum_list_with units taken = (n `min` sum_list_with units l)%nat.
Proof.
  revert n taken. induction l as [|c l IH]; intros n taken.
  - destruct n; simpl; intros [= <-]; (split; [done|simpl; lia]).
  - destruct n as [|n]; simpl; [intros [= <-]; split; [apply prefix_nil|done]|].
    destruct (units_cases c) as [Hc|Hc]; rewrite Hc.
    + destruct (takeUnits n l) as [rest|] eqn:Hrest; [|discriminate].
      intros [= <-]. destruct (IH _ _ Hrest) as [Hpre Hsum].
      split; [by apply prefix_cons|]. simpl. rewrite Hc, Hsum. lia.
    + destruct n as [|n]; [discriminate|].
      destruct (takeUnits n l) as [rest|] eqn:Hrest; [|discriminate].
      intros [= <-]. destruct (IH _ _ Hrest) as [Hpre Hsum].
      split; [by apply prefix_cons|]. simpl. rewrite Hc, Hsum. lia.
Qed.

(** [s.substring(0, n)] is the start of [s], of [n] code units or of all
    there are. *)
Lemma substring0_cut (n : nat) (s cut : string) :
  substring0 n s = Some cut ->
  (exists rest, s = cut +:+ rest) /\ length cut = (n `min` length s)%nat.
Proof.
  unfold substring0, length.
  destruct (takeUnits n (codePoints s)) as [taken|] eqn:Htaken; [|discriminate].
  intros [= <-]. destruct (takeUnits_cut _ _ _ Htaken) as [Hpre Hsum].
  split.
  - destruct Hpre as [k Hk]. exists (join k).
    by rewrite <- join_app, <- Hk, join_codePoints.
  - by rewrite (codePoints_prefix s).
Qed.

End JsFacts.

(** ** Updating the goal *)

Module GoalClaims.

Import Agent JsFacts Scenario.

Lemma trim_blank (g : string) :
  Js.trim g = EmptyString -> Js.falsy g || Js.falsy (Js.trim g) = true.
Proof. intros ->. apply orb_true_r. Qed.

(** C3, as the code has it.  [updateGoal] succeeds exactly for the owner
    and reverts with "Only owner can call this function" for everybody
    else; the contract accepts every text, the empty one included.  A goal
    that is missing, or empty after trimming, is turned away one layer up,
    by the goal-update route, with status 400 and before the ledger is
    called; a goal is empty after trimming exactly when every code point
    of it is white space to [String.prototype.trim], and the route answers
    400 for no other goal. *)
Theorem updateGoal_owner_only (m : Msg) (g : string) (s : State) :
  (sender m = owner s ->
     updateGoal m g s =
       Ok {| owner := owner s; factory := factory s; goal := g;
             lastResponse := lastResponse s;
             lastExecutionTime := lastExecutionTime s;
             executionCount := executionCount s;
             isActive := isActive s;
             memories := memories s; memoryIndex := memoryIndex s |}) /\
  (sender m <> owner s ->
     updateGoal m g s = Reverted OnlyOwner /\ kind OnlyOwner = Unauthorized) /\
  (forall env a w,
     AgentXAPI.putGoal env a None w = (AgentXAPI.Error 400 "Goal is required", w)) /\
  (Js.trim g = EmptyString <->
   Forall (fun c => Js.isWhiteSpace (Js.codePoint c) = true) (Js.codePoints g)) /\
  (Js.trim g = EmptyString ->
     forall env a w,
       AgentXAPI.putGoal env a (Some g) w =
         (AgentXAPI.Error 400 "Goal is required", w)) /\
  (forall env a w error,
     fst (AgentXAPI.putGoal env a (Some g) w) = AgentXAPI.Error 400 error ->
     Js.trim g = EmptyString).
Proof.
  unfold updateGoal, onlyOwner. split; [|split; [|split; [|split; [|split]]]].
  - intros ->. by rewrite Z.eqb_refl.
  - intros Hne. split; [|reflexivity].
    destruct (Z.eqb_spec (sender m) (owner s)); [contradiction|reflexivity].
  - reflexivity.
  - apply trim_empty.
  - intros Hblank env a w. unfold AgentXAPI.putGoal.
    by rewrite (trim_blank g Hblank).
  - intros env a w error. unfold AgentXAPI.putGoal.
    destruct (Js.falsy g) eqn:Hg; simpl.
    { intros _. by destruct g. }
    destruct (Js.falsy (Js.trim g)) eqn:Htrim; simpl.
    { intros _. by destruct (Js.trim g). }
    repeat case_match; simpl; intros [=].
Qed.

(** A goal of a no-break space, a blank and an ideographic space: the
    contract stores it for the owner, the route refuses it. *)
Lemma updateGoal_owner_only_witness :
  let s := constructor (mkMsg 900 1000) 7 "watch the chain" in
  (exists s', updateGoal (mkMsg 7 1500) wideBlanks s = Ok s' /\ goal s' = wideBlanks) /\
  updateGoal (mkMsg 8 1500) wideBlanks s = Reverted OnlyOwner /\
  forall env a w,
    AgentXAPI.putGoal env a (Some wideBlanks) w
    = (AgentXAPI.Error 400 "Goal is required", w).
Proof.
  intros s.
  pose proof (updateGoal_owner_only (mkMsg 7 1500) wideBlanks s)
    as (Hown & _ & _ & _ & Hapi & _).
  pose proof (updateGoal_owner_only (mkMsg 8 1500) wideBlanks s) as (_ & Hother & _).
  split; [|split].
  - eexists. split; [exact (Hown eq_refl)|reflexivity].
  - apply Hother. discriminate.
  - apply Hapi. by vm_compute.
Defined.

(** C3 as it was stated fails: the owner's call with a goal of two blanks
    goes through and the blanks become the goal. *)
Lemma updateGoal_accepts_blank_goal :
  Js.trim "  " = EmptyString /\
  exists s',
    updateGoal (mkMsg 7 1500) "  " (constructor (mkMsg 900 1000) 7 "watch the chain")
      = Ok s' /\
    goal s' = "  ".
Proof. split; [reflexivity|]. eexists. split; reflexivity. Qed.

End GoalClaims.

(** ** The executor *)

Module ExecutorFacts.

Import Ledger AgentExecutor.

Arguments waiting : simpl never.
Arguments buildPrompt : simpl never.
Arguments executionKey : simpl never.
Arguments executionNote : simpl never.
Arguments Agent.storeResponse : simpl never.
Arguments Agent.storeMemory : simpl never.

Ltac exec_unfold :=
  unfold executeAgent, run, try_catch, executeAgent_try, bind, getAgentInfo,
    getAllMemories, createCompletion, send, return_, throw, emit, pure, setContract;
  simpl.

Ltac exec_cases :=
  repeat (case_match; simpl in *; simplify_eq;
          rewrite ?lookup_insert_eq in *; try done).

(** *** What the two transactions leave alone *)

Lemma storeResponse_isActive m r s s' :
  Agent.storeResponse m r s = Ok s' -> Agent.isActive s' = Agent.isActive s.
Proof.
  unfold Agent.storeResponse. repeat case_match; try discriminate.
  by intros [= <-].
Qed.

Lemma storeMemory_isActive m k v s s' :
  Agent.storeMemory m k v s = Ok s' -> Agent.isActive s' = Agent.isActive s.
Proof.
  unfold Agent.storeMemory. repeat case_match; try discriminate.
  all: by intros [= <-].
Qed.


Lemma storeResponse_authorised m r s :
  Agent.onlyOwnerOrFactory m s = true ->
  Agent.executionCount s < MAX_UINT256 ->
  exists s',
    Agent.storeResponse m r s = Ok s' /\
    Agent.executionCount s' = Agent.executionCount s + 1 /\
    Agent.lastResponse s' = r /\
    Agent.memories s' = Agent.memories s.
Proof.
  intros Hauth Hmax. unfold Agent.storeResponse, checked_add. rewrite Hauth.
  destruct (Z.leb_spec (Agent.executionCount s + 1) MAX_UINT256); [|lia].
  eexists. split; [reflexivity|]. simpl. done.
Qed.

(** *** One agent *)

(** Processing [b] does not touch any other agent. *)
Lemma executeAgent_frame env a b w :
  a <> b -> contracts (executeAgent env b w).1 !! a = contracts w !! a.
Proof.
  intros Hne. exec_unfold. exec_cases.
  all: rewrite ?lookup_insert_ne by done; done.
Qed.

(** It never switches an agent on or off. *)
Lemma executeAgent_isActive env a b w :
  Agent.isActive <$> contracts (executeAgent env b w).1 !! a
  = Agent.isActive <$> contracts w !! a.
Proof.
  destruct (decide (a = b)) as [->|Hne].
  2:{ f_equal. by apply executeAgent_frame. }
  exec_unfold. exec_cases.
  all: repeat match goal with
       | H : Agent.storeResponse _ _ _ = Ok _ |- _ => apply storeResponse_isActive in H
       | H : Agent.storeMemory _ _ _ _ = Ok _ |- _ => apply storeMemory_isActive in H
       | H : contracts _ !! _ = _ |- _ => rewrite H
       end; simpl; congruence.
Qed.


(** The completion service is only ever asked about the agent being
    processed, and only when its snapshot is active. *)
Lemma executeAgent_generate env a b w p :
  Generate a p ∈ (executeAgent env b w).2 ->
  a = b /\ exists s, contracts w !! b = Some s /\ Agent.isActive s = true.
Proof.
  exec_unfold.
  destruct (unavailable (around env b) ReadAgentInfo); simpl;
    [by intros ?%list_elem_of_singleton|].
  destruct (contracts w !! b) as [s|] eqn:Hs; simpl;
    [|by intros ?%list_elem_of_singleton].
  destruct (Agent.isActive s) eqn:Hact; simpl; [|by intros ?%elem_of_nil].
  intros Hin.
  assert (Hab : a = b); [|split; [exact Hab|by exists s]].
  revert Hin. exec_cases.
  all: rewrite ?elem_of_app, ?elem_of_cons, ?elem_of_nil.
  all: intros Hin; decompose [or] Hin; simplify_eq; done.
Qed.

Lemma executeAgent_inactive env a w s :
  contracts w !! a = Some s ->
  Agent.isActive s = false ->
  unavailable (around env a) ReadAgentInfo = false ->
  executeAgent env a w = (w, []).
Proof.
  intros Hs Hact Hread. exec_unfold. rewrite Hread, Hs. simpl.
  by rewrite Hact.
Qed.



(** *** The loop over a page *)

Lemma executeLoop_cons env a l w :
  executeLoop env (a :: l) w =
    ((executeLoop env l (executeAgent env a w).1).1,
     (executeAgent env a w).2 ++ (executeLoop env l (executeAgent env a w).1).2).
Proof.
  simpl. destruct (executeAgent env a w) as [w1 t1]. simpl.
  by destruct (executeLoop env l w1) as [w2 t2].
Qed.



Lemma executeLoop_isActive env a l w :
  Agent.isActive <$> contracts (executeLoop env l w).1 !! a
  = Agent.isActive <$> contracts w !! a.
Proof.
  revert w. induction l as [|b l IH]; intros w; [done|].
  rewrite executeLoop_cons. simpl. rewrite IH. apply executeAgent_isActive.
Qed.

Lemma executeLoop_generate env a l w p :
  Generate a p ∈ (executeLoop env l w).2 ->
  exists s, contracts w !! a = Some s /\ Agent.isActive s = true.
Proof.
  revert w. induction l as [|b l IH]; intros w; [by intros ?%elem_of_nil|].
  rewrite executeLoop_cons. simpl. rewrite elem_of_app. intros [Hin|Hin].
  - apply executeAgent_generate in Hin as [-> Hs]. exact Hs.
  - apply IH in Hin as (s & Hs & Hact).
    pose proof (executeAgent_isActive env a b w) as Hsame.
    rewrite Hs in Hsame. simpl in Hsame.
    destruct (contracts w !! a) as [s0|]; [|discriminate].
    exists s0. split; [done|]. simpl in Hsame. congruence.
Qed.

(** *** The tick *)

(** Whatever a tick asks of the completion service, it asks from inside
    the loop over some page. *)
Lemma executeAgents_generate env a w p :
  Generate a p ∈ (executeAgents env w).2 ->
  exists page, Generate a p ∈ (executeLoop env page w).2.
Proof.
  unfold executeAgents, run, try_catch, executeAgents_try, bind, getAgentCount,
    getAgents, return_, throw, emit, call.
  repeat (case_match; simpl in *; simplify_eq; try done).
  all: rewrite ?elem_of_app, ?elem_of_cons, ?elem_of_nil;
       intros Hin; decompose [or] Hin; simplify_eq; try done.
  all: eexists; match goal with H : executeLoop _ _ _ = _ |- _ => rewrite H end; done.
Qed.

(** The tick as it is written: the count comes back as a BigInt, and
    [Math.min] throws on it, so a registry that is not empty ends every
    tick in the outer [catch], before the first agent is looked at. *)
Lemma executeAgents_type_error env w :
  registryDown env ReadAgentCount = false ->
  AgentFactory.agents (registry w) <> [] ->
  executeAgents env w = (w, [LoopError TypeError]).
Proof.
  intros Hup Hne.
  unfold executeAgents, run, try_catch, executeAgents_try, bind, getAgentCount,
    return_, throw, emit.
  rewrite Hup. unfold Js.looseEqZero, AgentFactory.getAgentCount. simpl.
  destruct (AgentFactory.agents (registry w)) as [|a l]; [done|]. done.
Qed.

End ExecutorFacts.

Module ExecutorClaims.

Import Ledger AgentExecutor ExecutorFacts Scenario.

(** C5.  The interval is 3600 seconds.  An agent that has never run is
    due whatever its recorded time, and one that has run is due exactly
    when at least [minInterval] seconds lie between that time and now.
    Being due is what sends an active agent to the completion service. *)
Theorem dueForExecution_policy (now : Z) (s : Agent.State) :
  minInterval = 3600 /\
  (Agent.executionCount s = 0 ->
     dueForExecution now (Agent.getAgentInfo s) = true) /\
  (0 < Agent.executionCount s ->
     (dueForExecution now (Agent.getAgentInfo s) = true <->
      minInterval <= now - Agent.lastExecutionTime s)) /\
  (forall env a w,
     contracts w !! a = Some s ->
     Agent.isActive s = true ->
     currentTime (around env a) = now ->
     unavailable (around env a) ReadAgentInfo = false ->
     unavailable (around env a) ReadAllMemories = false ->
     ((exists prompt, Generate a prompt ∈ (executeAgent env a w).2) <->
      dueForExecution now (Agent.getAgentInfo s) = true)).
Proof.
  split; [reflexivity|]. unfold dueForExecution, waiting. simpl.
  split; [|split].
  - intros ->. simpl. by rewrite andb_false_r.
  - intros Hpos. rewrite negb_true_iff, andb_false_iff, Z.ltb_ge.
    split; [intros [H|H]; [done|]|by left].
    destruct (Z.gtb_spec (Agent.executionCount s) 0); [discriminate|lia].
  - intros env a w Hs Hact Hnow Hinfo Hmem.
    exec_unfold. rewrite Hinfo, Hs. simpl. rewrite Hact, Hnow. simpl.
    unfold waiting. simpl.
    destruct (_ && _); simpl.
    + split; [|discriminate].
      intros [p Hin]. by apply elem_of_nil in Hin.
    + split; [done|]. intros _. rewrite Hmem. simpl. rewrite Hs. simpl.
      eexists. exec_cases; rewrite ?elem_of_app, elem_of_cons; eauto.
Qed.

(** The scenario of the design document: three runs behind it, the last
    one 1800 seconds ago, then 3600 seconds ago. *)
Lemma dueForExecution_policy_witness :
  let s := {| Agent.owner := 7; Agent.factory := 900; Agent.goal := "g";
              Agent.lastResponse := "r"; Agent.lastExecutionTime := 10000;
              Agent.executionCount := 3; Agent.isActive := true;
              Agent.memories := []; Agent.memoryIndex := ∅ |} in
  dueForExecution 11800 (Agent.getAgentInfo s) <> true /\
  dueForExecution 13600 (Agent.getAgentInfo s) = true.
Proof.
  intros s.
  pose proof (dueForExecution_policy 11800 s) as (_ & _ & Hearly & _).
  pose proof (dueForExecution_policy 13600 s) as (_ & _ & Hlate & _).
  split.
  - intros Hdue. apply (Hearly ltac:(simpl; lia)) in Hdue.
    unfold minInterval in Hdue. simpl in Hdue. lia.
  - apply (Hlate ltac:(simpl; lia)). unfold minInterval. simpl. lia.
Defined.

(** C6.  An agent whose storage says [isActive == false] is never handed
    to the completion service: when its snapshot is read, processing it
    ends at once, with no event, no error and no change; and no page and
    no tick produces a [Generate] event for it. *)
Theorem inactive_never_generated (env : Env) (a : address) (w : World) (s : Agent.State) :
  contracts w !! a = Some s ->
  Agent.isActive s = false ->
  (unavailable (around env a) ReadAgentInfo = false ->
     executeAgent env a w = (w, [])) /\
  (forall prompt, Generate a prompt ∉ (executeAgent env a w).2) /\
  (forall page prompt, Generate a prompt ∉ (executeLoop env page w).2) /\
  (forall prompt, Generate a prompt ∉ (executeAgents env w).2).
Proof.
  intros Hs Hact.
  assert (Hloop : forall page prompt, Generate a prompt ∉ (executeLoop env page w).2).
  { intros page prompt Hin.
    apply executeLoop_generate in Hin as (s' & Hs' & Hact'). congruence. }
  split; [|split; [|split]].
  - by apply (executeAgent_inactive env a w s).
  - intros prompt Hin.
    apply executeAgent_generate in Hin as (_ & s' & Hs' & Hact'). congruence.
  - exact Hloop.
  - intros prompt Hin.
    apply executeAgents_generate in Hin as [page Hin]. exact (Hloop _ _ Hin).
Qed.

Lemma inactive_never_generated_witness :
  executeAgent envCalm 101 dormant = (dormant, []) /\
  forall prompt, Generate 101 prompt ∉ (executeLoop envCalm [101; 102] dormant).2.
Proof.
  pose proof (inactive_never_generated envCalm 101 dormant _ eq_refl eq_refl)
    as (Hone & _ & Hpage & _).
  split; [exact (Hone eq_refl)|].
  intros prompt. apply Hpage.
Defined.




End ExecutorClaims.

(** ** The monitor *)

Module MonitorFacts.

Import Ledger AgentMonitor.

Lemma slice_last_all {A} (n : nat) (l : list A) :
  (length l <= n)%nat -> Js.slice_last n l = l.
Proof.
  intros Hle. unfold Js.slice_last.
  replace (length l - n)%nat with 0%nat by lia. reflexivity.
Qed.

Lemma slice_last_length {A} (n : nat) (l : list A) :
  (length (Js.slice_last n l) <= n)%nat.
Proof. unfold Js.slice_last. rewrite length_drop. lia. Qed.

Lemma slice_last_suffix {A} (n : nat) (l : list A) :
  Js.slice_last n l `suffix_of` l.
Proof. apply suffix_drop. Qed.

(** Trimming early does not change what a later trim keeps. *)
Lemma slice_last_app {A} (n : nat) (a b : list A) :
  Js.slice_last n (Js.slice_last n a ++ b) = Js.slice_last n (a ++ b).
Proof.
  unfold Js.slice_last.
  rewrite <- (drop_app_le a b (length a - n)) by lia.
  rewrite drop_drop. f_equal.
  rewrite length_drop, !length_app. lia.
Qed.

(** The test before the trim changes nothing: a short array is its own
    last thousand. *)
Lemma saveMonitoringData_written (env : Env) (data : Sample) (f : DataFile) :
  writeFails env = false ->
  saveMonitoringData env data f =
    Stored (Js.slice_last 1000 (loadHistory f ++ [data])).
Proof.
  intros Hw. unfold saveMonitoringData. rewrite Hw.
  destruct (Nat.ltb_spec 1000 (length (loadHistory f ++ [data]))); [reflexivity|].
  by rewrite slice_last_all.
Qed.

Lemma saveMonitoringData_lost (env : Env) (data : Sample) (f : DataFile) :
  writeFails env = true -> saveMonitoringData env data f = f.
Proof. intros Hw. unfold saveMonitoringData. by rewrite Hw. Qed.

Lemma written_cons_kept env data points :
  writeFails env = false -> written ((env, data) :: points) = data :: written points.
Proof. intros Hw. unfold written. by rewrite filter_cons_True. Qed.

Lemma written_cons_lost env data points :
  writeFails env = true -> written ((env, data) :: points) = written points.
Proof.
  intros Hw. unfold written. rewrite filter_cons_False; [done|].
  simpl. congruence.
Qed.

Lemma saves_history (points : list (Env * Sample)) :
  forall f : DataFile,
    (length (loadHistory f) <= 1000)%nat \/ written points <> [] ->
    loadHistory (saves points f) =
      Js.slice_last 1000 (loadHistory f ++ written points).
Proof.
  induction points as [|[env data] points IH]; intros f Hlen; simpl.
  - destruct Hlen as [Hlen|Hne]; [|done].
    unfold written. simpl. rewrite app_nil_r. by rewrite slice_last_all.
  - destruct (writeFails env) eqn:Hw.
    + rewrite saveMonitoringData_lost by done.
      rewrite written_cons_lost in * by done. by apply IH.
    + rewrite saveMonitoringData_written, written_cons_kept by done.
      rewrite IH by (left; apply slice_last_length). simpl.
      rewrite slice_last_app, <- app_assoc. reflexivity.
Qed.


End MonitorFacts.

Module MonitorClaims.

Import Ledger AgentMonitor MonitorFacts Scenario.

(** C8.  Take a file that holds at most 1000 data points (a missing or
    unreadable file holds none), or any file and a run of saves of which
    at least one is written.  After the run the file holds at most 1000
    data points, and they are the last 1000, in the order they were
    appended, of what it held at the start followed by the data points
    written since: the oldest are the ones that go. *)
Theorem history_bounded_fifo (points : list (Env * Sample)) (f : DataFile) :
  (length (loadHistory f) <= 1000)%nat \/ written points <> [] ->
  let appended := loadHistory f ++ written points in
  let kept := loadHistory (saves points f) in
  (length kept <= 1000)%nat /\
  kept = drop (length appended - 1000) appended /\
  kept `suffix_of` appended.
Proof.
  intros Hlen appended kept. subst appended kept.
  rewrite saves_history by done.
  split; [apply slice_last_length|].
  split; [reflexivity|apply slice_last_suffix].
Qed.

Lemma history_bounded_fifo_witness :
  let kept := loadHistory (saves thousandAndOne Absent) in
  length kept = 1000%nat /\
  head kept = Some (snd (point 1)) /\
  last kept = Some (snd (point 1000)).
Proof.
  intros kept.
  destruct (history_bounded_fifo thousandAndOne Absent ltac:(left; simpl; lia))
    as (_ & Hkept & _).
  subst kept. rewrite Hkept. vm_compute. repeat split.
Defined.



(** The whole scan over the fleet at time [4000]: both agents are an hour
    young and have never run, and both are reported as recent. *)
Example scanAgents_fleet :
  scanAgents watch fleet Absent = Stored [mkSample 4000 2 2 0 2].
Proof. reflexivity. Qed.

End MonitorClaims.

(** ** More about the Agent record *)

Module AgentMoreFacts.

Import Agent AgentFacts.

(** Every way a call can succeed, one goal for each. *)
Ltac call_cases Hcall :=
  unfold dispatch, updateGoal, storeResponse, storeMemory, setActive,
    transferOwnership, checked_add in Hcall;
  repeat case_match; simplify_eq.

Lemma stranger_not_owner (m : Msg) (s : State) :
  stranger m s -> onlyOwner m s = false /\ onlyOwnerOrFactory m s = false.
Proof.
  intros [Ho Hf]. unfold onlyOwner, onlyOwnerOrFactory.
  destruct (Z.eqb_spec (sender m) (owner s)); [contradiction|].
  destruct (Z.eqb_spec (sender m) (factory s)); [contradiction|]. done.
Qed.

Lemma stranger_reverts (m : Msg) (c : Call) (s : State) :
  stranger m s ->
  exists r, dispatch m c s = Reverted r /\ kind r = Unauthorized.
Proof.
  intros [Ho Hf]%stranger_not_owner.
  destruct c; simpl;
    unfold updateGoal, storeResponse, storeMemory, setActive, transferOwnership;
    rewrite ?Ho, ?Hf; eexists; split; reflexivity.
Qed.

(** *** The overwrite keeps the key *)

Lemma overwrite_keys (ms : list Memory) (i : nat) (e : Memory) v now :
  ms !! i = Some e ->
  key <$> <[i := overwrite e v now]> ms = key <$> ms.
Proof.
  intros He. rewrite list_fmap_insert. simpl.
  apply list_insert_id. rewrite list_lookup_fmap, He. reflexivity.
Qed.

Lemma storeMemory_loop_keys (k v : string) (now : Z) (ms : list Memory) (todo i : nat) :
  key <$> (storeMemory_loop todo i k v now ms).1 = key <$> ms.
Proof.
  revert i. induction todo as [|todo IH]; intros i; simpl; [done|].
  destruct (ms !! i) as [e|] eqn:He; [|done].
  destruct (decide (key e = k)); [|apply IH].
  simpl. by apply overwrite_keys.
Qed.

(** A successful call leaves the keys where they are and adds at most one,
    at the end, and only if it is a [storeMemory]. *)
Lemma dispatch_keys (m : Msg) (c : Call) (s s' : State) :
  dispatch m c s = Ok s' ->
  key <$> memories s' = key <$> memories s \/
  (exists k v, c = CallStoreMemory k v /\
               key <$> memories s' = (key <$> memories s) ++ [k]).
Proof.
  intros Hcall. destruct c as [g|r|k v|b|a]; simpl in Hcall.
  - left. by destruct (updateGoal_same _ _ _ _ Hcall) as [-> _].
  - left. by destruct (storeResponse_same _ _ _ _ Hcall) as [-> _].
  - unfold storeMemory in Hcall.
    destruct (onlyOwnerOrFactory m s); [|discriminate].
    destruct (_ && _).
    + pose proof (storeMemory_loop_keys k v (block_timestamp m) (memories s)
                    (length (memories s)) 0) as Hkeys.
      destruct (storeMemory_loop _ _ _ _ _ _) as [ms found]. simpl in Hkeys.
      destruct found; injection Hcall as <-; simpl.
      * by left.
      * right. exists k, v. split; [done|]. by rewrite fmap_app, Hkeys.
    + destruct (0 <? _)%nat.
      * destruct (memories s !! _) as [e|] eqn:He; [|discriminate].
        injection Hcall as <-. left. simpl. by apply overwrite_keys.
      * injection Hcall as <-. right. exists k, v. split; [done|].
        simpl. by rewrite fmap_app.
  - left. by destruct (setActive_same _ _ _ _ Hcall) as [-> _].
  - left. by destruct (transferOwnership_same _ _ _ _ Hcall) as [-> _].
Qed.

(** *** Counters and addresses under a call *)

Lemma dispatch_executionCount (m : Msg) (c : Call) (s s' : State) :
  dispatch m c s = Ok s' ->
  (executionCount s' = executionCount s /\
   forall r, c <> CallStoreResponse r) \/
  (executionCount s' = executionCount s + 1 /\
   executionCount s' <= MAX_UINT256 /\
   exists r, c = CallStoreResponse r).
Proof.
  intros Hcall. destruct c as [g|r|k v|b|a].
  2:{ right. simpl in Hcall. unfold storeResponse, checked_add in Hcall.
      destruct (onlyOwnerOrFactory m s); [|discriminate].
      destruct (Z.leb_spec (executionCount s + 1) MAX_UINT256); [|discriminate].
      injection Hcall as <-. simpl. eauto. }
  all: left; split; [|discriminate].
  all: call_cases Hcall; reflexivity.
Qed.

Lemma dispatch_owner (m : Msg) (c : Call) (s s' : State) :
  dispatch m c s = Ok s' ->
  factory s' = factory s /\
  (owner s' = owner s \/
   (sender m = owner s /\ owner s' <> 0 /\ c = CallTransferOwnership (owner s'))).
Proof.
  intros Hcall. destruct c as [g|r|k v|b|a].
  5:{ simpl in Hcall. unfold transferOwnership, onlyOwner in Hcall.
      destruct (Z.eqb_spec (sender m) (owner s)); [|discriminate].
      destruct (Z.eqb_spec a 0); [discriminate|].
      injection Hcall as <-. simpl. split; [done|]. right. done. }
  all: call_cases Hcall; simpl; split; first [reflexivity | by left].
Qed.

(** *** From calls to runs *)

Lemma transact_cases (m : Msg) (c : Call) (s : State) :
  (transact m c s = s /\ exists r, dispatch m c s = Reverted r) \/
  dispatch m c s = Ok (transact m c s).
Proof.
  unfold transact. destruct (dispatch m c s) as [s'|r]; [by right|left; eauto].
Qed.

Lemma replay_app (txs1 txs2 : list (Msg * Call)) (s : State) :
  replay (txs1 ++ txs2) s = replay txs2 (replay txs1 s).
Proof.
  revert s. induction txs1 as [|[m c] txs1 IH]; intros s; simpl; [done|apply IH].
Qed.

(** A run that respects the clock stays inside the histories. *)
Lemma replay_history (txs : list (Msg * Call)) :
  forall (t : Z) (s : State),
    history t s -> chronological t txs ->
    exists t', history t' (replay txs s) /\ t <= t'.
Proof.
  induction txs as [|[m c] txs IH]; intros t s Hhist Hchron; simpl.
  - exists t. split; [done|lia].
  - destruct Hchron as [Hle Hchron].
    destruct (IH (block_timestamp m) (transact m c s)) as (t' & Hhist' & Hle');
      [by apply (history_transact t)|done|].
    exists t'. split; [done|lia].
Qed.

(** *** Runs *)

Lemma replay_owner (txs : list (Msg * Call)) :
  forall s : State,
    owner s <> 0 ->
    owner (replay txs s) <> 0 /\ factory (replay txs s) = factory s.
Proof.
  induction txs as [|[m c] txs IH]; intros s Hs; simpl; [done|].
  destruct (transact_cases m c s) as [[-> _]|Hcall]; [by apply IH|].
  destruct (dispatch_owner _ _ _ _ Hcall) as [Hf [Ho|(_ & Ho & _)]].
  - rewrite <- Hf. apply IH. congruence.
  - rewrite <- Hf. by apply IH.
Qed.

Lemma replay_executionCount (txs : list (Msg * Call)) :
  forall s : State,
    is_uint256 (executionCount s) ->
    is_uint256 (executionCount (replay txs s)) /\
    executionCount s <= executionCount (replay txs s)
      <= executionCount s + Z.of_nat (length (List.filter isStoreResponse txs)).
Proof.
  induction txs as [|[m c] txs IH]; intros s Hs; simpl; [split; [done|lia]|].
  destruct (transact_cases m c s) as [[-> _]|Hcall].
  - destruct (IH s Hs) as [Hr Hb]. split; [done|].
    destruct (isStoreResponse (m, c)); simpl; lia.
  - unfold is_uint256 in *.
    destruct (dispatch_executionCount _ _ _ _ Hcall) as [[Heq Hc]|(Heq & Hmax & r & ->)].
    + destruct (IH (transact m c s)) as [Hr Hb]; [lia|]. split; [done|].
      destruct (isStoreResponse (m, c)); simpl; lia.
    + destruct (IH (transact m (CallStoreResponse r) s)) as [Hr Hb]; [lia|].
      split; [done|]. unfold isStoreResponse at 1. simpl. lia.
Qed.

Lemma replay_keys (txs : list (Msg * Call)) :
  forall s : State,
    (key <$> memories s) `prefix_of` (key <$> memories (replay txs s)) /\
    (length (memories (replay txs s))
     <= length (memories s) + length (List.filter isStoreMemory txs))%nat.
Proof.
  induction txs as [|[m c] txs IH]; intros s; simpl; [split; [done|lia]|].
  destruct (transact_cases m c s) as [[-> _]|Hcall].
  - destruct (IH s) as [Hp Hl]. split; [done|].
    destruct (isStoreMemory (m, c)); simpl; lia.
  - destruct (IH (transact m c s)) as [Hp Hl].
    destruct (dispatch_keys _ _ _ _ Hcall) as [Heq|(k & v & -> & Heq)].
    + split; [by rewrite <- Heq|].
      apply (f_equal length) in Heq. rewrite !length_fmap in Heq.
      destruct (isStoreMemory (m, c)); simpl; lia.
    + split.
      * etrans; [|exact Hp]. rewrite Heq. by apply prefix_app_r.
      * apply (f_equal length) in Heq.
        rewrite length_app, !length_fmap in Heq. simpl in Heq.
        unfold isStoreMemory at 1. simpl. lia.
Qed.

Lemma replay_lastExecutionTime (txs : list (Msg * Call)) :
  forall (t : Z) (s : State) (floor : Z),
    floor <= lastExecutionTime s -> floor <= t ->
    chronological t txs ->
    floor <= lastExecutionTime (replay txs s).
Proof.
  induction txs as [|[m c] txs IH]; intros t s floor Hs Ht Hchron; simpl; [done|].
  destruct Hchron as [Hle Hchron].
  apply (IH (block_timestamp m)); [|lia|done].
  destruct (transact_cases m c s) as [[-> _]|Hcall]; [done|].
  destruct (dispatch_lastExecutionTime _ _ _ _ Hcall) as [-> | ->]; lia.
Qed.

(** *** Keys other than the one stored *)

Lemma readIndex_upsert_other (m : Msg) (k k' v : string) (s : State) :
  k' <> k -> readIndex (upsert m k v s) k' = readIndex s k'.
Proof.
  intros Hne. unfold upsert. destruct (readIndex s k); [|done].
  unfold pushMemory. rewrite readIndex_setMemories.
  by rewrite lookup_insert_ne.
Qed.

Lemma memories_upsert_other (m : Msg) (k v : string) (s : State) (i : nat) (e : Memory) :
  index_agrees s ->
  memories s !! i = Some e -> key e <> k ->
  memories (upsert m k v s) !! i = Some e.
Proof.
  intros Hinv He Hne. unfold upsert.
  destruct (readIndex s k) as [|j] eqn:Hidx; simpl.
  - by apply lookup_app_l_Some.
  - destruct (proj1 (Hinv k j) Hidx) as (e0 & He0 & Hk0).
    rewrite list_lookup_insert_ne; [done|]. intros ->. congruence.
Qed.

Lemma getMemory_upsert_other (m : Msg) (k k' v : string) (s : State) :
  index_agrees s -> k' <> k ->
  getMemory k' (upsert m k v s) = getMemory k' s.
Proof.
  intros Hinv Hne.
  pose proof (index_agrees_upsert m k v s Hinv) as Hinv'.
  pose proof (readIndex_upsert_other m k k' v s Hne) as Hidx.
  destruct (readIndex s k') as [|i] eqn:Hk'.
  - unfold getMemory.
    rewrite !getMemory_loop_absent; [done| |]; by apply index_agrees_absent.
  - destruct (proj1 (Hinv k' i) Hk') as (e & He & Hke).
    rewrite (getMemory_unique s k' i e Hinv He Hke).
    apply (getMemory_unique _ k' i e Hinv'); [|done].
    apply memories_upsert_other; [done|done|congruence].
Qed.

End AgentMoreFacts.

Module AgentExtras.

Import Agent AgentFacts AgentMoreFacts Scenario.

(** X1.  Whatever an account that is neither the owner nor the factory
    sends to an agent, every call reverts as unauthorised and the storage
    stays exactly as it was. *)
Theorem strangers_change_nothing (txs : list (Msg * Call)) (s : State) :
  Forall (fun tx => stranger (fst tx) s) txs ->
  replay txs s = s /\
  Forall (fun tx => exists r, dispatch (fst tx) (snd tx) s = Reverted r /\
                              kind r = Unauthorized) txs.
Proof.
  induction 1 as [|[m c] txs Hx _ [IHr IHf]]; simpl; [done|].
  destruct (stranger_reverts m c s Hx) as (r & Hrev & Hkind).
  split.
  - unfold transact. by rewrite Hrev.
  - constructor; [|done]. simpl. eauto.
Qed.

Lemma strangers_change_nothing_witness : replay meddling newborn = newborn.
Proof.
  apply strangers_change_nothing.
  repeat constructor; simpl; discriminate.
Defined.

(** X2.  [transferOwnership] by the owner refuses the zero address and
    otherwise hands over everything that is the owner's: afterwards
    [updateGoal], [setActive] and [transferOwnership] succeed for the new
    owner and revert for every other account, the old owner included. *)
Theorem transferOwnership_hands_over (m : Msg) (_newOwner : address) (s : State) :
  sender m = owner s ->
  (_newOwner = 0 -> transferOwnership m _newOwner s = Reverted NewOwnerZero) /\
  (_newOwner <> 0 ->
     exists s',
       transferOwnership m _newOwner s = Ok s' /\
       owner s' = _newOwner /\
       goal s' = goal s /\ isActive s' = isActive s /\ memories s' = memories s /\
       forall (m' : Msg) (g : string) (b : bool) (a : address),
         (sender m' = _newOwner ->
            (exists s'', updateGoal m' g s' = Ok s'' /\ goal s'' = g) /\
            (exists s'', setActive m' b s' = Ok s'' /\ isActive s'' = b) /\
            (a <> 0 -> exists s'', transferOwnership m' a s' = Ok s'' /\ owner s'' = a)) /\
         (sender m' <> _newOwner ->
            updateGoal m' g s' = Reverted OnlyOwner /\
            setActive m' b s' = Reverted OnlyOwner /\
            transferOwnership m' a s' = Reverted OnlyOwner)).
Proof.
  intros Hown. unfold transferOwnership at 1 2, onlyOwner. rewrite Hown, Z.eqb_refl.
  split.
  - intros ->. reflexivity.
  - intros Hnz. destruct (Z.eqb_spec _newOwner 0); [contradiction|].
    eexists. split; [reflexivity|]. simpl. do 4 (split; [reflexivity|]).
    intros m' g b a.
    unfold updateGoal, setActive, transferOwnership, onlyOwner. simpl. split.
    + intros ->. rewrite Z.eqb_refl. split; [eauto|]. split; [eauto|].
      intros Ha. destruct (Z.eqb_spec a 0); [contradiction|]. eauto.
    + intros Hother.
      by destruct (Z.eqb_spec (sender m') _newOwner).
Qed.

Lemma transferOwnership_hands_over_witness :
  transferOwnership (mkMsg 7 1100) 0 newborn = Reverted NewOwnerZero /\
  exists s',
    transferOwnership (mkMsg 7 1100) 8 newborn = Ok s' /\
    updateGoal (mkMsg 7 1200) "Should fail" s' = Reverted OnlyOwner /\
    exists s'', updateGoal (mkMsg 8 1200) "New owner's goal" s' = Ok s'' /\
                goal s'' = "New owner's goal".
Proof.
  destruct (transferOwnership_hands_over (mkMsg 7 1100) 0 newborn eq_refl) as [Hzero _].
  destruct (transferOwnership_hands_over (mkMsg 7 1100) 8 newborn eq_refl) as [_ Hmove].
  split; [exact (Hzero eq_refl)|].
  destruct (Hmove ltac:(discriminate)) as (s' & Hcall & _ & _ & _ & _ & Hrights).
  exists s'. split; [exact Hcall|]. split.
  - apply (proj2 (Hrights (mkMsg 7 1200) "Should fail" true 0)). simpl. discriminate.
  - apply (proj1 (Hrights (mkMsg 8 1200) "New owner's goal" true 0)). reflexivity.
Defined.

(** X3.  An agent created for an owner that is not the zero address never
    has the zero address as its owner, and its [factory] stays the account
    that created it, whatever transactions it receives. *)
Theorem owner_never_zero (txs : list (Msg * Call)) (m : Msg) (_owner : address)
    (_goal : string) :
  _owner <> 0 ->
  owner (replay txs (constructor m _owner _goal)) <> 0 /\
  factory (replay txs (constructor m _owner _goal)) = sender m.
Proof. intros Hnz. by apply (replay_owner txs (constructor m _owner _goal)). Qed.

Lemma owner_never_zero_witness :
  owner (replay busy newborn) <> 0 /\ factory (replay busy newborn) = 900.
Proof. apply (owner_never_zero busy (mkMsg 900 1000) 7). discriminate. Defined.

(** X4.  [executionCount] stays a [uint256], never goes down, and over any
    run of transactions goes up by no more than the number of
    [storeResponse] calls among them. *)
Theorem executionCount_bounded (txs : list (Msg * Call)) (s : State) :
  is_uint256 (executionCount s) ->
  is_uint256 (executionCount (replay txs s)) /\
  executionCount s <= executionCount (replay txs s)
    <= executionCount s + Z.of_nat (length (List.filter isStoreResponse txs)).
Proof. apply replay_executionCount. Qed.

Lemma executionCount_bounded_witness :
  0 <= executionCount (replay busy newborn) <= 2.
Proof.
  destruct (executionCount_bounded busy newborn) as [_ Hb].
  - unfold is_uint256, MAX_UINT256. simpl. lia.
  - simpl in Hb. simpl. lia.
Defined.

(** X5.  On every state an agent can reach, a [storeMemory] that succeeds
    can be read back: [getMemory] of the key returns the value and the
    block time of the call, and [getMemory] of every other key returns
    what it returned before. *)
Theorem storeMemory_getMemory_roundtrip (t : Z) (s s' : State) (m : Msg) (k v : string) :
  history t s ->
  storeMemory m k v s = Ok s' ->
  getMemory k s' = (v, block_timestamp m) /\
  forall k', k' <> k -> getMemory k' s' = getMemory k' s.
Proof.
  intros Hhist Hcall. split; [by eapply storeMemory_then_getMemory|].
  intros k' Hne. pose proof (history_index_agrees t s Hhist) as Hinv.
  destruct (onlyOwnerOrFactory m s) eqn:Hauth;
    [|unfold storeMemory in Hcall; rewrite Hauth in Hcall; discriminate].
  rewrite (storeMemory_is_upsert m k v s Hinv Hauth) in Hcall.
  injection Hcall as <-. by apply getMemory_upsert_other.
Qed.

Lemma storeMemory_getMemory_roundtrip_witness :
  let s := transact (mkMsg 7 1010) (CallStoreMemory "k" "v1") newborn in
  exists s',
    storeMemory (mkMsg 7 1020) "other" "v2" s = Ok s' /\
    getMemory "other" s' = ("v2", 1020) /\
    getMemory "k" s' = ("v1", 1010).
Proof.
  intros s. eexists. split; [reflexivity|].
  assert (Hhist : history 1010 s).
  { apply (history_transact 1000 newborn (mkMsg 7 1010));
      [apply (history_created (mkMsg 900 1000))|simpl; lia]. }
  destruct (storeMemory_getMemory_roundtrip 1010 s _ (mkMsg 7 1020) "other" "v2"
              Hhist eq_refl) as [Hback Hrest].
  split; [exact Hback|]. rewrite (Hrest "k"); [reflexivity|discriminate].
Defined.

(** X6.  No transaction removes or reorders memory entries or changes the
    key of one: the sequence of keys before a run is a prefix of the
    sequence after it, and the run adds no more entries than it has
    [storeMemory] calls. *)
Theorem memories_only_grow (txs : list (Msg * Call)) (s : State) :
  (key <$> memories s) `prefix_of` (key <$> memories (replay txs s)) /\
  (length (memories (replay txs s))
   <= length (memories s) + length (List.filter isStoreMemory txs))%nat.
Proof. apply replay_keys. Qed.

(** X7.  Along any run of transactions whose block times do not go
    backwards, [lastExecutionTime] never decreases. *)
Theorem lastExecutionTime_monotone (txs : list (Msg * Call)) (t : Z) (s : State) :
  history t s ->
  chronological t txs ->
  lastExecutionTime s <= lastExecutionTime (replay txs s).
Proof.
  intros Hhist Hchron.
  apply (replay_lastExecutionTime txs t); [lia| |done].
  by apply history_lastExecutionTime.
Qed.

Lemma lastExecutionTime_monotone_witness :
  lastExecutionTime newborn <= lastExecutionTime (replay busy newborn).
Proof.
  apply (lastExecutionTime_monotone busy 1000).
  - apply (history_created (mkMsg 900 1000)).
  - simpl. lia.
Defined.

(** X8.  An agent created at a positive block time has a positive
    [lastExecutionTime] from then on, at least its creation time, so the
    details view of the menu shows a date for it and never the word
    "Never", also when the agent has not run once. *)
Theorem never_shown_as_never (txs : list (Msg * Call)) (m : Msg) (_owner : address)
    (_goal : string) :
  0 < block_timestamp m ->
  chronological (block_timestamp m) txs ->
  let s := replay txs (constructor m _owner _goal) in
  block_timestamp m <= lastExecutionTime s /\
  AgentXCLI.lastExecutionLine (getAgentInfo s) = AgentXCLI.ExecutedAt (lastExecutionTime s).
Proof.
  intros Hpos Hchron s.
  assert (Hfloor : block_timestamp m <= lastExecutionTime s).
  { apply (replay_lastExecutionTime txs (block_timestamp m)); [simpl; lia|lia|done]. }
  split; [done|]. unfold AgentXCLI.lastExecutionLine. simpl.
  destruct (Z.gtb_spec (lastExecutionTime s) 0); [done|lia].
Qed.

Lemma never_shown_as_never_witness :
  AgentXCLI.lastExecutionLine (getAgentInfo newborn) = AgentXCLI.ExecutedAt 1000.
Proof.
  apply (never_shown_as_never [] (mkMsg 900 1000) 7 "watch the chain");
    simpl; [lia|exact I].
Defined.

End AgentExtras.

(** ** More about the registry *)

Module RegistryMoreFacts.

Import Ledger AgentFactory RegistryFacts.

Lemma createAgent_userAgents (m : Msg) (a : address) (g : string) (w : World)
    (user : address) :
  getUserAgents user (registry (createAgent m a g w)) =
    if decide (sender m = user)
    then getUserAgents user (registry w) ++ [a]
    else getUserAgents user (registry w).
Proof.
  unfold createAgent, getUserAgents. simpl.
  destruct (decide (sender m = user)) as [->|Hne].
  - by rewrite lookup_insert_eq.
  - by rewrite lookup_insert_ne.
Qed.

Lemma createAgent_isValidAgent (m : Msg) (a b : address) (g : string) (w : World) :
  isValidAgent b (registry (createAgent m a g w)) =
    if decide (a = b) then true else isValidAgent b (registry w).
Proof.
  unfold createAgent, isValidAgent. simpl.
  destruct (decide (a = b)) as [->|Hne].
  - by rewrite lookup_insert_eq.
  - by rewrite lookup_insert_ne.
Qed.

Lemma createAgent_contract_other (m : Msg) (a b : address) (g : string) (w : World) :
  a <> b -> contracts (createAgent m a g w) !! b = contracts w !! b.
Proof. intros Hne. unfold createAgent. simpl. by rewrite lookup_insert_ne. Qed.

Lemma registerAll_registry (rs : list Registration) :
  forall w : World,
    let w' := registerAll rs w in
    self (registry w') = self (registry w) /\
    agents (registry w') = agents (registry w) ++ (assigned <$> rs) /\
    (forall user,
       getUserAgents user (registry w') =
         getUserAgents user (registry w)
         ++ (assigned <$> filter (fun r => sender (creation r) = user) rs)) /\
    (forall a,
       isValidAgent a (registry w') = true <->
       isValidAgent a (registry w) = true \/ a ∈ assigned <$> rs).
Proof.
  induction rs as [|r rs IH]; intros w; simpl.
  - split; [done|]. split; [by rewrite app_nil_r|].
    split; [intros user; by rewrite app_nil_r|].
    intros a. split; [by left|]. intros [H|H]; [done|by apply elem_of_nil in H].
  - destruct (IH (createAgent (creation r) (assigned r) (initialGoal r) w))
      as (Hself & Hagents & Husers & Hvalid).
    split; [by rewrite Hself|].
    split; [rewrite Hagents; simpl; by rewrite <- app_assoc|].
    split.
    + intros user. rewrite Husers, createAgent_userAgents.
      destruct (decide (sender (creation r) = user)) as [Heq|Hne].
      * rewrite filter_cons_True by done. simpl. by rewrite <- app_assoc.
      * by rewrite filter_cons_False.
    + intros a. rewrite Hvalid, createAgent_isValidAgent, elem_of_cons.
      destruct (decide (assigned r = a)) as [->|Hne]; [tauto|].
      split; [tauto|]. intros [H|[H|H]]; [tauto|congruence|tauto].
Qed.

Lemma registerAll_contract_other (rs : list Registration) :
  forall (w : World) (a : address),
    a ∉ assigned <$> rs ->
    contracts (registerAll rs w) !! a = contracts w !! a.
Proof.
  induction rs as [|r rs IH]; intros w a Hnot; simpl; [done|].
  simpl in Hnot. apply not_elem_of_cons in Hnot as [Hne Hnot].
  rewrite IH by done. by apply createAgent_contract_other.
Qed.

Lemma registerAll_contract (rs : list Registration) (r : Registration) :
  forall w : World,
    NoDup (assigned <$> rs) ->
    r ∈ rs ->
    contracts (registerAll rs w) !! assigned r =
      Some (Agent.constructor
              (mkMsg (self (registry w)) (block_timestamp (creation r)))
              (sender (creation r)) (initialGoal r)).
Proof.
  induction rs as [|r0 rs IH]; intros w Hnd Hin; [by apply elem_of_nil in Hin|].
  simpl in Hnd. apply NoDup_cons in Hnd as [Hfresh Hnd]. simpl.
  apply elem_of_cons in Hin as [->|Hin].
  - rewrite registerAll_contract_other by done.
    unfold createAgent. simpl. by rewrite lookup_insert_eq.
  - by rewrite IH.
Qed.

End RegistryMoreFacts.

Module RegistryExtras.

Import Ledger AgentFactory RegistryFacts RegistryMoreFacts Scenario.

(** X9.  After any run of registrations on a fresh factory, the flat
    sequence holds the assigned ids in the order of creation, the list of
    every account holds exactly the ids that account created, in the same
    order, and [isValidAgent] is true exactly for the ids of the flat
    sequence. *)
Theorem registry_indexes_agree (factoryAddress : address) (rs : list Registration) :
  let f := registry (registerAll rs (genesis factoryAddress)) in
  agents f = assigned <$> rs /\
  getAgentCount f = Z.of_nat (length rs) /\
  (forall user,
     getUserAgents user f =
       assigned <$> filter (fun r => sender (creation r) = user) rs) /\
  (forall a, isValidAgent a f = true <-> a ∈ agents f).
Proof.
  intros f. subst f.
  destruct (registerAll_registry rs (genesis factoryAddress))
    as (_ & Hagents & Husers & Hvalid).
  simpl in Hagents. split; [done|].
  split; [unfold getAgentCount; by rewrite Hagents, length_fmap|].
  split.
  - intros user. rewrite Husers. unfold genesis, getUserAgents, deploy. simpl.
    by rewrite lookup_empty.
  - intros a. rewrite Hvalid, Hagents.
    unfold genesis, isValidAgent, deploy. simpl. rewrite lookup_empty. simpl.
    split; [intros [H|H]; [discriminate|done]|by right].
Qed.

(** X10.  When the ledger assigns a new address to every agent, each
    registered id holds the contract its registration built: owned by the
    account that registered it, with the registry as its [factory], active,
    with no execution and no memory, stamped with the time of its
    registration. *)
Theorem registered_agents_are_fresh (factoryAddress : address)
    (rs : list Registration) (r : Registration) :
  NoDup (assigned <$> rs) ->
  r ∈ rs ->
  contracts (registerAll rs (genesis factoryAddress)) !! assigned r =
    Some {| Agent.owner := sender (creation r);
            Agent.factory := factoryAddress;
            Agent.goal := initialGoal r;
            Agent.lastResponse := EmptyString;
            Agent.lastExecutionTime := block_timestamp (creation r);
            Agent.executionCount := 0;
            Agent.isActive := true;
            Agent.memories := [];
            Agent.memoryIndex := ∅ |}.
Proof.
  intros Hnd Hin.
  by rewrite (registerAll_contract rs r (genesis factoryAddress) Hnd Hin).
Qed.

Lemma registered_agents_are_fresh_witness :
  Agent.owner <$> contracts (registerAll threeRegistrations (genesis 900)) !! 103
    = Some 8.
Proof.
  assert (Hnd : NoDup (assigned <$> threeRegistrations)) by compute_done.
  assert (Hin : mkRegistration (mkMsg 8 1002) 103 "count the blocks"
                  ∈ threeRegistrations).
  { unfold threeRegistrations. do 2 apply list_elem_of_further.
    apply list_elem_of_here. }
  exact (f_equal (fmap Agent.owner)
           (registered_agents_are_fresh 900 threeRegistrations _ Hnd Hin)).
Defined.



(** X12.  A registration adds one to the count, puts the new id on the
    last position, where a page of one finds it, and leaves every page that
    ended before it as it was. *)
Theorem createAgent_appends (m : Msg) (a : address) (g : string) (w : World) :
  let f := registry w in
  let f' := registry (createAgent m a g w) in
  getAgentCount f' = getAgentCount f + 1 /\
  (getAgentCount f < MAX_UINT256 -> getAgents (getAgentCount f) 1 f' = Ok [a]) /\
  (forall offset limit,
     0 <= offset < getAgentCount f -> 0 <= limit ->
     offset + limit <= getAgentCount f ->
     offset + limit <= MAX_UINT256 ->
     getAgents offset limit f' = getAgents offset limit f).
Proof.
  intros f f'. subst f f'.
  assert (Hagents : agents (registry (createAgent m a g w)) = agents (registry w) ++ [a])
    by done.
  assert (Hcount : getAgentCount (registry (createAgent m a g w))
                   = getAgentCount (registry w) + 1).
  { unfold getAgentCount. rewrite Hagents, length_app. simpl. lia. }
  split; [done|]. split.
  - intros Hmax. rewrite getAgents_in_range; [|unfold getAgentCount in *; lia|lia|lia].
    rewrite Hagents. unfold getAgentCount. rewrite Nat2Z.id.
    by rewrite drop_app_length.
  - intros offset limit Hoff Hlim Hend Hmax.
    rewrite !getAgents_in_range by lia. f_equal.
    rewrite Hagents. unfold getAgentCount in *.
    rewrite drop_app_le by lia. rewrite take_app_le; [done|].
    rewrite length_drop. lia.
Qed.

Lemma createAgent_appends_witness :
  getAgents 2 1 (registry (createAgent (mkMsg 8 1002) 103 "count the blocks" fleet))
    = Ok [103] /\
  getAgents 0 2 (registry (createAgent (mkMsg 8 1002) 103 "count the blocks" fleet))
    = getAgents 0 2 (registry fleet).
Proof.
  destruct (createAgent_appends (mkMsg 8 1002) 103 "count the blocks" fleet)
    as (_ & Hlast & Hstable).
  split.
  - apply Hlast. by vm_compute.
  - apply Hstable; [split| | |]; by vm_compute.
Defined.

(** X13.  The [hasMore] flag of [getAllAgents] is true exactly when the
    page stops short of the end: the request that follows it, at the
    offset moved on by the length of the page, then starts inside the
    registry; when the flag is false that request reverts. *)
Theorem getAllAgents_hasMore (f : State) (offset limit : Z) :
  0 <= offset < getAgentCount f ->
  0 <= limit ->
  offset + limit <= MAX_UINT256 ->
  exists page,
    AgentXUtils.getAllAgents offset limit f = Ok page /\
    AgentXUtils.totalCount page = getAgentCount f /\
    (AgentXUtils.hasMore page = true <-> offset + limit < getAgentCount f) /\
    let next := offset + Z.of_nat (length (AgentXUtils.agents page)) in
    (AgentXUtils.hasMore page = true -> next < getAgentCount f) /\
    (AgentXUtils.hasMore page = false ->
       AgentXUtils.getAllAgents next limit f = Reverted OffsetOutOfBounds).
Proof.
  intros Hoff Hlim Hmax. unfold AgentXUtils.getAllAgents.
  rewrite getAgents_in_range by lia.
  eexists. split; [reflexivity|]. simpl. split; [done|].
  rewrite length_take, length_drop.
  set (n := (Z.to_nat limit `min` (length (agents f) - Z.to_nat offset))%nat).
  assert (Hn : Z.of_nat n = Z.min limit (getAgentCount f - offset)).
  { unfold n, getAgentCount in *. lia. }
  rewrite Z.ltb_lt. split; [lia|]. split; [done|].
  intros Hlast%Z.ltb_ge.
  unfold getAgents, getAgentCount in *.
  destruct (Z.ltb_spec (offset + Z.of_nat n) (Z.of_nat (length (agents f)))); [lia|done].
Qed.

Lemma getAllAgents_hasMore_witness :
  (exists page, AgentXUtils.getAllAgents 0 2 five = Ok page /\
                AgentXUtils.hasMore page = true) /\
  (exists page, AgentXUtils.getAllAgents 4 2 five = Ok page /\
                AgentXUtils.hasMore page = false).
Proof.
  split.
  - destruct (getAllAgents_hasMore five 0 2) as (page & Hcall & _ & Hmore & _);
      [split; by vm_compute|lia|unfold MAX_UINT256; lia|].
    exists page. split; [exact Hcall|]. apply Hmore. by vm_compute.
  - destruct (getAllAgents_hasMore five 4 2) as (page & Hcall & _ & Hmore & _);
      [split; by vm_compute|lia|unfold MAX_UINT256; lia|].
    exists page. split; [exact Hcall|].
    destruct (AgentXUtils.hasMore page); [|reflexivity].
    exfalso. assert (Hlt : 4 + 2 < getAgentCount five) by (by apply Hmore).
    by vm_compute in Hlt.
Defined.

End RegistryExtras.

(** ** More about the executor *)

Module ExecutorMoreFacts.

Import Ledger AgentExecutor ExecutorFacts AgentFacts AgentMoreFacts.

Lemma storeResponse_standing m r s s' :
  Agent.storeResponse m r s = Ok s' -> standing s' = standing s.
Proof.
  unfold Agent.storeResponse. repeat case_match; try discriminate.
  by intros [= <-].
Qed.

Lemma storeMemory_standing m k v s s' :
  Agent.storeMemory m k v s = Ok s' -> standing s' = standing s.
Proof.
  unfold Agent.storeMemory. repeat case_match; try discriminate.
  all: by intros [= <-].
Qed.

Lemma executeAgent_standing env a b w :
  standing <$> contracts (executeAgent env b w).1 !! a
  = standing <$> contracts w !! a.
Proof.
  destruct (decide (a = b)) as [->|Hne].
  2:{ f_equal. by apply executeAgent_frame. }
  exec_unfold. exec_cases.
  all: repeat match goal with
       | H : Agent.storeResponse _ _ _ = Ok _ |- _ => apply storeResponse_standing in H
       | H : Agent.storeMemory _ _ _ _ = Ok _ |- _ => apply storeMemory_standing in H
       | H : contracts _ !! _ = _ |- _ => rewrite H
       end; simpl; congruence.
Qed.

Lemma executeAgent_registry env b w :
  registry (executeAgent env b w).1 = registry w.
Proof. exec_unfold. exec_cases. Qed.

Lemma executeLoop_standing env a page w :
  registry (executeLoop env page w).1 = registry w /\
  standing <$> contracts (executeLoop env page w).1 !! a
  = standing <$> contracts w !! a.
Proof.
  revert w. induction page as [|b page IH]; intros w; [done|].
  rewrite executeLoop_cons. simpl.
  destruct (IH (executeAgent env b w).1) as [-> ->].
  split; [apply executeAgent_registry|apply executeAgent_standing].
Qed.

(** A wallet that is neither owner nor factory gets nothing through. *)
Lemma executeAgent_foreign_wallet env a w s :
  contracts w !! a = Some s ->
  wallet env <> Agent.owner s ->
  wallet env <> Agent.factory s ->
  (executeAgent env a w).1 = w.
Proof.
  intros Hs Ho Hf.
  assert (Hrev : forall t r, Agent.storeResponse (mkMsg (wallet env) t) r s
                             = Reverted OnlyOwnerOrFactory).
  { intros t r. unfold Agent.storeResponse.
    by destruct (stranger_not_owner (mkMsg (wallet env) t) s (conj Ho Hf)) as [_ ->]. }
  exec_unfold. rewrite Hs. simpl.
  destruct (unavailable (around env a) ReadAgentInfo); [done|]. simpl.
  destruct (Agent.isActive s); simpl; [|done].
  destruct (waiting _ _); simpl; [done|].
  destruct (unavailable (around env a) ReadAllMemories); simpl; [done|].
  rewrite Hs. simpl.
  destruct (completion _ _); simpl; [|done].
  destruct (unavailable (around env a) SendStoreResponse); simpl; [done|].
  rewrite Hs. simpl. by rewrite Hrev.
Qed.

(** The complete run of one agent, every step going through. *)
Lemma executeAgent_complete env a w s text note :
  contracts w !! a = Some s ->
  commits env a s text ->
  executionNote (around env a) text = Some note ->
  unavailable (around env a) SendStoreMemory = false ->
  exists s1,
    Agent.storeResponse (mkMsg (wallet env) (responseBlock (around env a))) text s = Ok s1 /\
    match Agent.storeMemory (mkMsg (wallet env) (memoryBlock (around env a)))
            (executionKey (Agent.getAgentInfo s)) note s1 with
    | Ok s2 => contracts (executeAgent env a w).1 !! a = Some s2
    | Reverted _ => contracts (executeAgent env a w).1 !! a = Some s1
    end.
Proof.
  intros Hs (Hinfo & Hact & Hdue & Hmem & Hgen & Hsend & Hauth & Hmax) Hnote Hmemory.
  destruct (storeResponse_authorised _ text s Hauth Hmax) as (s1 & Hcall & _).
  exists s1. split; [done|].
  unfold dueForExecution in Hdue. apply negb_true_iff in Hdue.
  exec_unfold. rewrite Hinfo, Hs. simpl. rewrite Hact. simpl.
  rewrite Hdue, Hmem. simpl. rewrite Hs. simpl.
  unfold Agent.getAllMemories in *. rewrite Hgen. simpl.
  rewrite Hsend. simpl. rewrite Hs. simpl. rewrite Hcall. simpl.
  rewrite Hnote. simpl.
  rewrite Hmemory. simpl. rewrite lookup_insert_eq.
  destruct (Agent.storeMemory _ _ _ _); simpl; by rewrite lookup_insert_eq.
Qed.

(** The run of one agent whose note cannot be encoded: the result is
    committed, the memory transaction is never sent. *)
Lemma executeAgent_unencodable env a w s text :
  contracts w !! a = Some s ->
  commits env a s text ->
  executionNote (around env a) text = None ->
  exists s1,
    Agent.storeResponse (mkMsg (wallet env) (responseBlock (around env a))) text s = Ok s1 /\
    executeAgent env a w =
      (setContract w a s1,
       [Generate a (buildPrompt (Agent.getAgentInfo s) (Agent.getAllMemories s));
        Mined a (Agent.CallStoreResponse text);
        AgentError a InvalidArgument]).
Proof.
  intros Hs (Hinfo & Hact & Hdue & Hmem & Hgen & Hsend & Hauth & Hmax) Hnote.
  destruct (storeResponse_authorised _ text s Hauth Hmax) as (s1 & Hcall & _).
  exists s1. split; [done|].
  unfold dueForExecution in Hdue. apply negb_true_iff in Hdue.
  exec_unfold. rewrite Hinfo, Hs. simpl. rewrite Hact. simpl.
  rewrite Hdue, Hmem. simpl. rewrite Hs. simpl.
  unfold Agent.getAllMemories in *. rewrite Hgen. simpl.
  rewrite Hsend. simpl. rewrite Hs. simpl. rewrite Hcall. simpl.
  by rewrite Hnote.
Qed.

Lemma storeResponse_stamp m r s s' :
  Agent.storeResponse m r s = Ok s' ->
  Agent.lastExecutionTime s' = block_timestamp m /\
  Agent.executionCount s' = Agent.executionCount s + 1 /\
  Agent.isActive s' = Agent.isActive s /\
  Agent.owner s' = Agent.owner s /\ Agent.factory s' = Agent.factory s /\
  Agent.same_memories s s'.
Proof.
  unfold Agent.storeResponse, checked_add.
  destruct (Agent.onlyOwnerOrFactory m s); [|discriminate].
  destruct (Agent.executionCount s + 1 <=? MAX_UINT256); [|discriminate].
  intros [= <-]. simpl. repeat split.
Qed.

Lemma storeMemory_keeps_result m k v s s' :
  Agent.storeMemory m k v s = Ok s' ->
  Agent.lastExecutionTime s' = Agent.lastExecutionTime s /\
  Agent.executionCount s' = Agent.executionCount s /\
  Agent.isActive s' = Agent.isActive s.
Proof.
  unfold Agent.storeMemory. repeat case_match; try discriminate.
  all: by intros [= <-].
Qed.

(** After the result went through, whatever became of the memory. *)
Lemma executeAgent_commits_stamp env a w s text :
  contracts w !! a = Some s ->
  commits env a s text ->
  exists s',
    contracts (executeAgent env a w).1 !! a = Some s' /\
    Agent.lastExecutionTime s' = responseBlock (around env a) /\
    Agent.executionCount s' = Agent.executionCount s + 1 /\
    Agent.isActive s' = true.
Proof.
  intros Hs Hok.
  pose proof Hok as (Hinfo & Hact & Hdue & Hmem & Hgen & Hsend & Hauth & Hmax).
  destruct (storeResponse_authorised _ text s Hauth Hmax) as (s1 & Hcall & _).
  destruct (storeResponse_stamp _ _ _ _ Hcall) as (Ht & Hc & Ha & _).
  unfold dueForExecution in Hdue. apply negb_true_iff in Hdue.
  exec_unfold. rewrite Hinfo, Hs. simpl. rewrite Hact. simpl.
  rewrite Hdue, Hmem. simpl. rewrite Hs. simpl.
  unfold Agent.getAllMemories in *. rewrite Hgen. simpl.
  rewrite Hsend. simpl. rewrite Hs. simpl. rewrite Hcall. simpl.
  destruct (executionNote _ _) as [note|]; simpl.
  2:{ rewrite lookup_insert_eq. exists s1. simpl in *. split; [done|].
      split; [done|]. split; [done|]. congruence. }
  destruct (unavailable (around env a) SendStoreMemory); simpl.
  - rewrite lookup_insert_eq. exists s1. simpl in *. split; [done|]. 
    split; [done|]. split; [done|]. congruence.
  - rewrite lookup_insert_eq.
    destruct (Agent.storeMemory _ _ _ _) as [s2|r] eqn:Hstore; simpl;
      rewrite lookup_insert_eq.
    + exists s2. destruct (storeMemory_keeps_result _ _ _ _ _ Hstore) as (-> & -> & ->).
      simpl in *. split; [done|]. split; [done|]. split; [done|]. congruence.
    + exists s1. simpl in *. split; [done|]. split; [done|]. split; [done|].
      congruence.
Qed.

(** What is read back with the index in step. *)
Lemma storeMemory_read_back (m : Msg) (k v : string) (s s' : Agent.State) :
  Agent.index_agrees s ->
  Agent.storeMemory m k v s = Ok s' ->
  Agent.getMemory k s' = (v, block_timestamp m).
Proof.
  intros Hinv Hcall.
  destruct (Agent.onlyOwnerOrFactory m s) eqn:Hauth;
    [|unfold Agent.storeMemory in Hcall; rewrite Hauth in Hcall; discriminate].
  rewrite (storeMemory_is_upsert m k v s Hinv Hauth) in Hcall.
  injection Hcall as <-.
  pose proof (index_agrees_upsert m k v s Hinv) as Hinv'.
  unfold Agent.upsert in *. destruct (Agent.readIndex s k) as [|i] eqn:Hidx.
  - apply (getMemory_unique _ k (length (Agent.memories s))
             (Agent.mkMemory k v (block_timestamp m)) Hinv'); [|reflexivity].
    simpl. by apply list_lookup_middle.
  - destruct (proj1 (Hinv k i) Hidx) as (e & He & _).
    apply (getMemory_unique _ k i (Agent.mkMemory k v (block_timestamp m)) Hinv');
      [|reflexivity].
    simpl. apply list_lookup_insert_eq. by eapply lookup_lt_Some.
Qed.

(** *** Strings *)

Lemma append_length (s1 s2 : string) :
  String.length (s1 +:+ s2) = (String.length s1 + String.length s2)%nat.
Proof. induction s1 as [|c s1 IH]; simpl; [done|]. by rewrite IH. Qed.

Lemma append_inj_r (p s1 s2 : string) : p +:+ s1 = p +:+ s2 -> s1 = s2.
Proof. induction p as [|c p IH]; simpl; [done|]. intros [= H]. by apply IH. Qed.

End ExecutorMoreFacts.

Module ExecutorExtras.

Import Ledger AgentExecutor ExecutorFacts ExecutorMoreFacts AgentFacts JsFacts Scenario.

(** X14.  Of an agent's memories only the last five reach the prompt:
    whatever older entries stand in front of five, the prompt is the one
    built from those five alone. *)
Theorem prompt_uses_last_five (info : Agent.Info) (older recent : list Agent.Memory) :
  length recent = 5%nat ->
  buildPrompt info (older ++ recent) = buildPrompt info recent.
Proof.
  intros Hfive. unfold buildPrompt, memoryContext, Js.slice_last.
  rewrite length_app, Hfive.
  replace (length older + 5 - 5)%nat with (length older) by lia.
  rewrite drop_app_length. simpl drop.
  destruct (Nat.ltb_spec 0 (length older + 5)); [|lia]. reflexivity.
Qed.

Lemma prompt_uses_last_five_witness :
  let recent := [Agent.mkMemory "b" "2" 20; Agent.mkMemory "c" "3" 30;
                 Agent.mkMemory "d" "4" 40; Agent.mkMemory "e" "5" 50;
                 Agent.mkMemory "f" "6" 60] in
  buildPrompt (Agent.getAgentInfo newborn) (Agent.mkMemory "a" "1" 10 :: recent)
  = buildPrompt (Agent.getAgentInfo newborn) recent.
Proof.
  intros recent.
  apply (prompt_uses_last_five _ [Agent.mkMemory "a" "1" 10] recent). reflexivity.
Defined.

(** X15.  Once the result of an agent is committed in a block of time
    [tb], processing the agent again while the executor's clock shows less
    than [tb + 3600] does nothing at all: no call to the completion
    service, no transaction, no error. *)
Theorem cooling_after_commit (env later : Env) (a : address) (w : World)
    (s : Agent.State) (text : string) :
  contracts w !! a = Some s ->
  0 <= Agent.executionCount s ->
  commits env a s text ->
  unavailable (around later a) ReadAgentInfo = false ->
  currentTime (around later a) < responseBlock (around env a) + 3600 ->
  let w1 := (executeAgent env a w).1 in
  executeAgent later a w1 = (w1, []).
Proof.
  intros Hs Hcount Hok Hread Hsoon w1. subst w1.
  destruct (executeAgent_commits_stamp env a w s text Hs Hok)
    as (s' & Hs' & Htime & Hc & Hact).
  remember (executeAgent env a w).1 as w1 eqn:Hw1. clear Hw1.
  exec_unfold. rewrite Hread, Hs'. simpl. rewrite Hact. simpl.
  unfold waiting, minInterval. simpl. rewrite Htime, Hc.
  destruct (Z.ltb_spec (currentTime (around later a) - responseBlock (around env a)) 3600);
    [|lia].
  destruct (Z.gtb_spec (Agent.executionCount s + 1) 0); [|lia]. reflexivity.
Qed.

Lemma cooling_after_commit_witness :
  let w1 := (executeAgent envCalm 101 fleet).1 in
  executeAgent envLater 101 w1 = (w1, []).
Proof.
  apply (cooling_after_commit envCalm envLater 101 fleet newborn "all quiet").
  - reflexivity.
  - simpl. lia.
  - repeat split; reflexivity.
  - reflexivity.
  - simpl. lia.
Defined.

(** X16.  An executor whose wallet is neither the owner nor the factory of
    any agent of the page changes nothing on the ledger, whatever the
    completion service answers. *)
Theorem foreign_wallet_changes_nothing (env : Env) (page : list address) (w : World) :
  (forall a s, a ∈ page -> contracts w !! a = Some s ->
     wallet env <> Agent.owner s /\ wallet env <> Agent.factory s) ->
  (executeLoop env page w).1 = w.
Proof.
  induction page as [|a page IH]; intros Hforeign; [done|].
  rewrite executeLoop_cons. simpl.
  assert (Hone : (executeAgent env a w).1 = w).
  { destruct (contracts w !! a) as [s|] eqn:Hs.
    - destruct (Hforeign a s) as [Ho Hf]; [by left|done|].
      by apply (executeAgent_foreign_wallet env a w s).
    - exec_unfold. rewrite Hs.
      by destruct (unavailable (around env a) ReadAgentInfo). }
  rewrite Hone. apply IH. intros b s Hb. apply Hforeign. by right.
Qed.

Lemma foreign_wallet_changes_nothing_witness :
  (executeLoop envForeign [101; 102] fleet).1 = fleet.
Proof.
  apply foreign_wallet_changes_nothing.
  intros a s Hin Hs.
  apply elem_of_cons in Hin as [->|Hin];
    [|apply elem_of_cons in Hin as [->|Hin]; [|by apply elem_of_nil in Hin]].
  - vm_compute in Hs. injection Hs as <-. split; discriminate.
  - vm_compute in Hs. injection Hs as <-. split; discriminate.
Defined.

(** X17.  The executor never touches the registry and never changes who
    owns an agent, which factory created it, what its goal is or whether it
    is active: over any page these are the same after the loop as before
    it, for every agent. *)
Theorem executor_keeps_standing (env : Env) (page : list address) (w : World)
    (a : address) :
  registry (executeLoop env page w).1 = registry w /\
  standing <$> contracts (executeLoop env page w).1 !! a
  = standing <$> contracts w !! a.
Proof. apply executeLoop_standing. Qed.

(** X18.  When the result of a reachable agent is committed and the
    memory transaction can be sent, the note of the execution is read back
    under the key [execution_] followed by the count the agent had before:
    it is the timestamp string, a colon and a blank, and the first 200
    UTF-16 code units of the text, all of the text when it has fewer,
    stamped with the block time of the memory transaction.  When the 200th
    code unit is the first half of a surrogate pair the note cannot be
    encoded: no memory transaction is sent, the agent keeps the memories
    it had, and the error is logged. *)
Theorem execution_is_recorded (env : Env) (a : address) (w : World)
    (t : Z) (s : Agent.State) (text : string) :
  Agent.history t s ->
  contracts w !! a = Some s ->
  commits env a s text ->
  unavailable (around env a) SendStoreMemory = false ->
  match Js.substring0 200 text with
  | Some cut =>
      (exists rest, text = cut +:+ rest) /\
      Js.length cut = (200 `min` Js.length text)%nat /\
      exists s',
        contracts (executeAgent env a w).1 !! a = Some s' /\
        Agent.getMemory ("execution_" +:+ pretty (Agent.executionCount s)) s'
        = (isoString (around env a) +:+ ": " +:+ cut, memoryBlock (around env a))
  | None =>
      exists s',
        contracts (executeAgent env a w).1 !! a = Some s' /\
        Agent.memories s' = Agent.memories s /\
        AgentError a InvalidArgument ∈ (executeAgent env a w).2
  end.
Proof.
  intros Hhist Hs Hok Hmemory.
  pose proof Hok as (_ & _ & _ & _ & _ & _ & Hauth & _).
  destruct (Js.substring0 200 text) as [cut|] eqn:Hcut.
  - destruct (substring0_cut _ _ _ Hcut) as [Hstart Hlen].
    split; [exact Hstart|]. split; [exact Hlen|].
    assert (Hnote : executionNote (around env a) text
                    = Some (isoString (around env a) +:+ ": " +:+ cut)).
    { unfold executionNote. by rewrite Hcut. }
    destruct (executeAgent_complete env a w s text _ Hs Hok Hnote Hmemory)
      as (s1 & Hcall & Hend).
    destruct (storeResponse_stamp _ _ _ _ Hcall) as (_ & _ & _ & Ho & Hf & Hsame).
    assert (Hinv : Agent.index_agrees s1).
    { eapply index_agrees_same; [exact Hsame|]. by eapply history_index_agrees. }
    assert (Hauth' : Agent.onlyOwnerOrFactory
                       (mkMsg (wallet env) (memoryBlock (around env a))) s1 = true).
    { unfold Agent.onlyOwnerOrFactory in *. simpl in *. by rewrite Ho, Hf. }
    rewrite (storeMemory_is_upsert _ _ _ s1 Hinv Hauth') in Hend.
    eexists. split; [exact Hend|].
    apply (storeMemory_read_back
             (mkMsg (wallet env) (memoryBlock (around env a))) _ _ s1); [done|].
    by apply storeMemory_is_upsert.
  - assert (Hnote : executionNote (around env a) text = None).
    { unfold executionNote. by rewrite Hcut. }
    destruct (executeAgent_unencodable env a w s text Hs Hok Hnote)
      as (s1 & Hcall & ->).
    destruct (storeResponse_stamp _ _ _ _ Hcall) as (_ & _ & _ & _ & _ & Hsame & _).
    exists s1. simpl. rewrite lookup_insert_eq. split; [done|]. split; [done|].
    do 2 apply list_elem_of_further. apply list_elem_of_here.
Qed.

Lemma execution_is_recorded_witness :
  (exists s',
     contracts (executeAgent envAccents 101 fleet).1 !! 101 = Some s' /\
     Agent.getMemory "execution_0" s'
     = ("1970-01-01T01:23:20.000Z: " +:+ Js.join (replicate 200 eAcute), 5002)) /\
  AgentError 101 InvalidArgument ∈ (executeAgent envGrins 101 fleet).2.
Proof.
  assert (Hcut : Js.substring0 200 accents = Some (Js.join (replicate 200 eAcute)))
    by (by vm_compute).
  assert (Hsplit : Js.substring0 200 grins = None) by (by vm_compute).
  split.
  - pose proof (execution_is_recorded envAccents 101 fleet 1000 newborn accents) as H.
    rewrite Hcut in H.
    destruct H as (_ & _ & s' & Hs' & Hread).
    + apply (Agent.history_created (mkMsg 900 1000)).
    + reflexivity.
    + repeat split; reflexivity.
    + reflexivity.
    + exists s'. split; [exact Hs'|exact Hread].
  - pose proof (execution_is_recorded envGrins 101 fleet 1000 newborn grins) as H.
    rewrite Hsplit in H.
    destruct H as (s' & _ & _ & Hlogged).
    + apply (Agent.history_created (mkMsg 900 1000)).
    + reflexivity.
    + repeat split; reflexivity.
    + reflexivity.
    + exact Hlogged.
Defined.

(** X19.  As the tick is written it never gets to an agent: the count of
    the registry arrives as a BigInt, [Math.min] throws on it, and the
    outer [catch] logs the error.  Every tick leaves the ledger as it was
    and logs one error at most; with the registry in reach and not empty
    it logs exactly that type error. *)
Theorem tick_never_reaches_an_agent (env : Env) (w : World) :
  (executeAgents env w).1 = w /\
  ((executeAgents env w).2 = [] \/
   exists e, (executeAgents env w).2 = [LoopError e]) /\
  (registryDown env ReadAgentCount = false ->
   AgentFactory.agents (registry w) <> [] ->
     (executeAgents env w).2 = [LoopError TypeError]).
Proof.
  split; [|split].
  - unfold executeAgents, run, try_catch, executeAgents_try, bind, getAgentCount,
      return_, throw, emit. simpl.
    destruct (registryDown env ReadAgentCount); [done|]. simpl.
    by destruct (Js.looseEqZero _).
  - unfold executeAgents, run, try_catch, executeAgents_try, bind, getAgentCount,
      return_, throw, emit. simpl.
    destruct (registryDown env ReadAgentCount); [right; by eexists|]. simpl.
    destruct (Js.looseEqZero _); [by left|right; by eexists].
  - intros Hup Hne. by rewrite executeAgents_type_error.
Qed.

Lemma tick_never_reaches_an_agent_witness :
  executeAgents envCalm fleet = (fleet, [LoopError TypeError]).
Proof.
  pose proof (tick_never_reaches_an_agent envCalm fleet) as (Hw & _ & Hlog).
  rewrite (surjective_pairing (executeAgents envCalm fleet)), Hw, Hlog;
    [reflexivity|reflexivity|discriminate].
Defined.

(** X20.  Every transaction that processing an agent gets mined goes to
    that agent and to no other, and is one of two: the result, whose text
    is what the completion service returned for the prompt built from the
    snapshot and the memories of that agent, which was active and due; or
    the memory under the key of this execution, whose value is the note
    made of that same text. *)
Theorem committed_text_is_completion (env : Env) (a b : address) (w : World)
    (c : Agent.Call) :
  Mined b c ∈ (executeAgent env a w).2 ->
  b = a /\
  exists s text,
    contracts w !! a = Some s /\
    Agent.isActive s = true /\
    dueForExecution (currentTime (around env a)) (Agent.getAgentInfo s) = true /\
    completion (around env a)
      (buildPrompt (Agent.getAgentInfo s) (Agent.getAllMemories s)) = Some text /\
    (c = Agent.CallStoreResponse text \/
     exists note,
       executionNote (around env a) text = Some note /\
       c = Agent.CallStoreMemory (executionKey (Agent.getAgentInfo s)) note).
Proof.
  exec_unfold.
  destruct (unavailable (around env a) ReadAgentInfo); simpl;
    [by intros [=]%list_elem_of_singleton|].
  destruct (contracts w !! a) as [s|] eqn:Hs; simpl;
    [|by intros [=]%list_elem_of_singleton].
  destruct (Agent.isActive s) eqn:Hact; simpl; [|by intros ?%elem_of_nil].
  unfold dueForExecution.
  destruct (waiting _ _) eqn:Hwait; simpl; [by intros ?%elem_of_nil|].
  destruct (unavailable (around env a) ReadAllMemories); simpl;
    [by intros [=]%list_elem_of_singleton|].
  rewrite Hs. simpl.
  destruct (completion _ _) as [answer|] eqn:Hgen; simpl.
  2:{ rewrite elem_of_cons, list_elem_of_singleton. by intros [[=]|[=]]. }
  intros Hin.
  assert (Hboth : b = a /\
                  (c = Agent.CallStoreResponse answer \/
                   exists note,
                     executionNote (around env a) answer = Some note /\
                     c = Agent.CallStoreMemory (executionKey (Agent.getAgentInfo s))
                           note)).
  { revert Hin. destruct (executionNote (around env a) answer) as [note|] eqn:Hnote.
    all: exec_cases.
    all: intros Hin%list_elem_of_In; simpl in Hin.
    all: decompose [or] Hin; simplify_eq; try done.
    all: split; [done|]; first [by left | right; by eexists]. }
  destruct Hboth as [-> Hc]. split; [done|]. exists s, answer.
  unfold waiting in Hgen. rewrite negb_true_iff. done.
Qed.

Lemma committed_text_is_completion_witness :
  let note := "1970-01-01T01:23:20.000Z: all quiet" in
  Mined 101 (Agent.CallStoreMemory "execution_0" note)
    ∈ (executeAgent envCalm 101 fleet).2 /\
  exists s text,
    contracts fleet !! 101 = Some s /\
    completion calm (buildPrompt (Agent.getAgentInfo s) (Agent.getAllMemories s))
    = Some text /\
    executionKey (Agent.getAgentInfo s) = "execution_0" /\
    executionNote calm text = Some note.
Proof.
  intros note.
  assert (Hin : Mined 101 (Agent.CallStoreMemory "execution_0" note)
                ∈ (executeAgent envCalm 101 fleet).2).
  { vm_compute. do 2 apply list_elem_of_further. apply list_elem_of_here. }
  split; [exact Hin|].
  destruct (committed_text_is_completion envCalm 101 101 fleet _ Hin)
    as (_ & s & text & Hs & _ & _ & Hgen & [Hc|(note' & Hnote & Hc)]);
    [discriminate|].
  assert (Hsame : note' = note) by congruence. subst note'.
  exists s, text. split; [exact Hs|]. split; [exact Hgen|]. split; [|exact Hnote].
  vm_compute in Hs. by injection Hs as <-.
Defined.

End ExecutorExtras.

(** ** More about the monitor *)

Module MonitorMoreFacts.

Import Ledger AgentMonitor MonitorFacts RegistryFacts.

Lemma scanOne_bounds (env : Env) (w : World) (acc : Counters) (a : address) :
  nActive acc <= nActive (scanOne env w acc a) <= nActive acc + 1 /\
  nRecent acc <= nRecent (scanOne env w acc a) <= nRecent acc + 1.
Proof.
  unfold scanOne. destruct (getAgentInfo env a w) as [info|]; simpl; [|lia].
  destruct (Agent.active info); destruct (_ >? _); lia.
Qed.

Lemma scan_bounds (env : Env) (w : World) (page : list address) :
  forall acc : Counters,
    let c := fold_left (scanOne env w) page acc in
    nActive acc <= nActive c <= nActive acc + Z.of_nat (length page) /\
    nRecent acc <= nRecent c <= nRecent acc + Z.of_nat (length page).
Proof.
  induction page as [|a page IH]; intros acc; simpl; [lia|].
  pose proof (scanOne_bounds env w acc a).
  specialize (IH (scanOne env w acc a)). simpl in IH. lia.
Qed.

(** What the monitor's request for a page of a thousand comes to. *)
Lemma getAllAgents_thousand (env : Env) (w : World) :
  getAllAgents env 0 1000 w =
    if registryDown env then None
    else match AgentFactory.agents (registry w) with
         | [] => None
         | _ => Some (take 1000 (AgentFactory.agents (registry w)),
                      AgentFactory.getAgentCount (registry w))
         end.
Proof.
  unfold getAllAgents. destruct (registryDown env); [done|].
  destruct (AgentFactory.agents (registry w)) as [|a l] eqn:Hagents.
  - unfold AgentFactory.getAgents. by rewrite Hagents.
  - rewrite getAgents_in_range;
      [|unfold AgentFactory.getAgentCount; rewrite Hagents; simpl; lia
       |lia|unfold MAX_UINT256; lia].
    by rewrite Hagents.
Qed.

Lemma last_slice_last {A} (n : nat) (l : list A) (x : A) :
  (0 < n)%nat -> last (Js.slice_last n (l ++ [x])) = Some x.
Proof.
  intros Hn. unfold Js.slice_last. rewrite length_app. simpl.
  rewrite drop_app_le by lia. apply last_snoc.
Qed.

(** A wider window holds at least as many data points. *)
Lemma filter_length_mono {A} (P Q : A -> Prop)
    `{!forall x, Decision (P x)} `{!forall x, Decision (Q x)} (l : list A) :
  (forall x, P x -> Q x) ->
  (length (filter P l) <= length (filter Q l))%nat.
Proof.
  intros Himp. induction l as [|x l IH]; [done|].
  destruct (decide (P x)) as [HP|HP].
  - rewrite (filter_cons_True P) by done.
    rewrite (filter_cons_True Q) by auto. simpl. lia.
  - rewrite (filter_cons_False P) by done.
    destruct (decide (Q x)).
    + rewrite (filter_cons_True Q) by done. simpl. lia.
    + by rewrite (filter_cons_False Q).
Qed.

End MonitorMoreFacts.

Module MonitorExtras.

Import Ledger AgentMonitor MonitorFacts MonitorMoreFacts Scenario.

(** X21.  A scan that reaches a registry with at least one agent and can
    write its file appends one data point: stamped with the time of the
    scan, with the full count of the registry as [totalAgents], and with
    [activeAgents] and [recentExecutions] between 0 and the smaller of that
    count and 1000, the most the scan looks at. *)
Theorem scan_appends_bounded_sample (env : Env) (w : World) (f : DataFile) :
  registryDown env = false ->
  AgentFactory.agents (registry w) <> [] ->
  writeFails env = false ->
  exists data,
    last (loadHistory (scanAgents env w f)) = Some data /\
    timestamp data = currentTime env /\
    totalAgents data = AgentFactory.getAgentCount (registry w) /\
    0 <= activeAgents data <= Z.min (totalAgents data) 1000 /\
    0 <= recentExecutions data <= Z.min (totalAgents data) 1000.
Proof.
  intros Hup Hne Hwrite. unfold scanAgents.
  rewrite getAllAgents_thousand, Hup.
  destruct (AgentFactory.agents (registry w)) as [|a l] eqn:Hagents; [done|].
  rewrite <- Hagents. rewrite saveMonitoringData_written by done. simpl loadHistory.
  eexists. split; [apply last_slice_last; lia|]. simpl.
  split; [done|]. split; [done|].
  pose proof (scan_bounds env w (take 1000 (AgentFactory.agents (registry w)))
                (mkCounters 0 0 0)) as Hb.
  simpl in Hb. rewrite length_take in Hb.
  unfold AgentFactory.getAgentCount. lia.
Qed.

Lemma scan_appends_bounded_sample_witness :
  exists data,
    last (loadHistory (scanAgents watch fleet Absent)) = Some data /\
    totalAgents data = 2 /\ 0 <= activeAgents data <= 2.
Proof.
  destruct (scan_appends_bounded_sample watch fleet Absent eq_refl)
    as (data & Hlast & _ & Htotal & Hactive & _); [discriminate|reflexivity|].
  exists data. split; [exact Hlast|].
  assert (Hcount : AgentFactory.getAgentCount (registry fleet) = 2) by reflexivity.
  rewrite Hcount in Htotal. split; [exact Htotal|]. rewrite Htotal in Hactive. lia.
Defined.

(** X22.  A scan that cannot reach the registry, or finds it empty (the
    request for the first page of an empty registry reverts), records
    nothing: the data file is left as it was. *)
Theorem scan_of_nothing_records_nothing (env : Env) (w : World) (f : DataFile) :
  registryDown env = true \/ AgentFactory.agents (registry w) = [] ->
  scanAgents env w f = f.
Proof.
  intros Hnone. unfold scanAgents. rewrite getAllAgents_thousand.
  destruct Hnone as [-> | ->]; [done|]. by destruct (registryDown env).
Qed.

Lemma scan_of_nothing_records_nothing_witness :
  scanAgents blind fleet (Stored logged) = Stored logged /\
  scanAgents watch (genesis 900) Absent = Absent.
Proof.
  split; apply scan_of_nothing_records_nothing; [by left|by right].
Defined.

(** X23.  The statistics of a file that holds data describe windows that
    are never empty: the latest data point is in its own last hour, so the
    hourly window holds at least one point, the daily window at least as
    many, and neither average divides by zero; the history returned is the
    last 24 points at most.  A missing file and an empty array are both
    answered with "No monitoring data available". *)
Theorem stats_windows_hold_latest (data : list Sample) :
  getMonitoringStats Absent = StatsError "No monitoring data available" /\
  getMonitoringStats (Stored []) = StatsError "No monitoring data available" /\
  (data <> [] ->
     exists latest hourly daily history,
       getMonitoringStats (Stored data) = StatsReport latest hourly daily history /\
       last data = Some latest /\
       (1 <= dataPoints hourly <= dataPoints daily)%nat /\
       (dataPoints daily <= length data)%nat /\
       (length history <= 24)%nat /\
       history `suffix_of` data).
Proof.
  split; [done|]. split; [done|].
  intros Hne. unfold getMonitoringStats.
  destruct (last data) as [latest|] eqn:Hlast; [|by apply last_None in Hlast].
  do 4 eexists. split; [reflexivity|]. split; [done|]. simpl.
  split; [split|split; [|split]].
  - assert (Hin : latest ∈ filter (fun d => timestamp latest - 3600 < timestamp d) data).
    { apply list_elem_of_filter. split; [lia|]. by apply last_Some_elem_of. }
    destruct (filter _ data); [by apply elem_of_nil in Hin|simpl; lia].
  - apply filter_length_mono. intros d. lia.
  - apply length_filter.
  - apply slice_last_length.
  - apply slice_last_suffix.
Qed.

Lemma stats_windows_hold_latest_witness :
  exists latest hourly daily history,
    getMonitoringStats (Stored logged) = StatsReport latest hourly daily history /\
    dataPoints hourly = 1%nat /\ dataPoints daily = 2%nat.
Proof.
  destruct (stats_windows_hold_latest logged) as (_ & _ & Hstats).
  destruct (Hstats ltac:(discriminate))
    as (latest & hourly & daily & history & Hcall & _).
  exists latest, hourly, daily, history. split; [exact Hcall|].
  vm_compute in Hcall. injection Hcall as <- <- <- <-. split; reflexivity.
Defined.

(** X24.  The warning about an agent that has stopped executing is only
    ever written for an agent that is active and has executed before, and
    it always reports six hours or more; an agent that was switched off or
    has never run is not reported, however old its time stamp. *)
Theorem stale_warning_needs_a_run (env : Env) (agentInfo : Agent.Info) (hours : Z) :
  NotExecuting hours ∈ checkAgentHealth env agentInfo ->
  Agent.active agentInfo = true /\
  0 < Agent.execCount agentInfo /\
  6 <= hours /\
  hours = (currentTime env - Agent.lastExecution agentInfo) / 3600.
Proof.
  unfold checkAgentHealth. rewrite !elem_of_app.
  destruct (Agent.active agentInfo); simpl.
  2:{ intros [H|[H|H]]; [by apply elem_of_nil in H| |];
      destruct (_ >? _); try (by apply elem_of_nil in H);
      by apply list_elem_of_singleton in H. }
  destruct (Z.gtb_spec (Agent.execCount agentInfo) 0) as [Hrun|Hnever];
    destruct (Z.gtb_spec (currentTime env - Agent.lastExecution agentInfo) 21600)
      as [Hold|Hyoung]; simpl.
  all: intros [H|[H|H]].
  all: try (by apply elem_of_nil in H).
  all: try (destruct (_ >? _); [by apply list_elem_of_singleton in H
                               |by apply elem_of_nil in H]).
  apply list_elem_of_singleton in H. injection H as ->.
  split; [done|]. split; [lia|]. split; [|done].
  apply Z.div_le_lower_bound; lia.
Qed.

Lemma stale_warning_needs_a_run_witness :
  let env := mkEnv 30000 false (fun _ => false) false in
  let info := Agent.mkInfo 7 "g" "r" 1000 3 true 0 in
  NotExecuting 8 ∈ checkAgentHealth env info /\
  Agent.active info = true /\ 0 < Agent.execCount info /\ 6 <= 8 /\
  8 = (currentTime env - Agent.lastExecution info) / 3600.
Proof.
  intros env info.
  assert (Hin : NotExecuting 8 ∈ checkAgentHealth env info)
    by (vm_compute; apply list_elem_of_here).
  split; [exact Hin|].
  exact (stale_warning_needs_a_run env info 8 Hin).
Defined.

End MonitorExtras.

(** ** The HTTP layer *)

Module ApiFacts.

Import Ledger AgentXAPI ExecutorMoreFacts.

(** *** Sorting

    For a comparator that is the difference of a ranking, as the one of
    the route is, the sort returns the same elements with the ranks going
    down. *)

Section Sort.

Context {A : Type} (rank : A -> Z) (compare : A -> A -> Z).
Hypothesis compare_rank : forall a b, compare a b = rank b - rank a.

Lemma sort_insert_perm (x : A) (l : list A) :
  Js.sort_insert compare x l ≡ₚ x :: l.
Proof.
  induction l as [|y l IH]; simpl; [done|].
  destruct (compare x y <=? 0); [done|].
  rewrite IH. apply Permutation_swap.
Qed.

Lemma sort_perm (l : list A) : Js.sort compare l ≡ₚ l.
Proof.
  induction l as [|x l IH]; simpl; [done|].
  change (foldr (Js.sort_insert compare) [] l) with (Js.sort compare l).
  by rewrite sort_insert_perm, IH.
Qed.

Lemma sort_insert_sorted (x : A) (l : list A) :
  StronglySorted (fun a b => rank b <= rank a) l ->
  StronglySorted (fun a b => rank b <= rank a) (Js.sort_insert compare x l).
Proof.
  induction l as [|y l IH]; intros Hsorted; simpl.
  - repeat constructor.
  - apply StronglySorted_cons in Hsorted as [Hall Hsorted].
    rewrite compare_rank.
    destruct (Z.leb_spec (rank y - rank x) 0) as [Hle|Hgt].
    + apply StronglySorted_cons. split.
      * constructor; [lia|].
        eapply Forall_impl; [exact Hall|]. simpl. intros z Hz. lia.
      * by apply StronglySorted_cons.
    + apply StronglySorted_cons. split; [|by apply IH].
      rewrite sort_insert_perm. constructor; [lia|done].
Qed.

Lemma sort_sorted (l : list A) :
  StronglySorted (fun a b => rank b <= rank a) (Js.sort compare l).
Proof.
  induction l as [|x l IH]; simpl; [constructor|].
  by apply sort_insert_sorted.
Qed.

End Sort.

(** *** Strings *)

Lemma prefix_append (p s : string) : String.prefix p (p +:+ s) = true.
Proof.
  induction p as [|c p IH]; simpl; [by destruct s|].
  destruct (ascii_dec c c); [done|contradiction].
Qed.

Lemma substring_all (s : string) : String.substring 0 (String.length s) s = s.
Proof. induction s as [|c s IH]; simpl; [done|by rewrite IH]. Qed.

Lemma substring_after (p s : string) :
  String.substring (String.length p) (String.length s) (p +:+ s) = s.
Proof. induction p as [|c p IH]; simpl; [apply substring_all|done]. Qed.

Lemma replace_unfold (p r s : string) :
  Js.replace p r s =
    if String.prefix p s
    then r +:+ String.substring (String.length p) (String.length s - String.length p) s
    else match s with
         | EmptyString => EmptyString
         | String c rest => String c (Js.replace p r rest)
         end.
Proof. by destruct s. Qed.

(** Replacing a prefix by nothing takes it off. *)
Lemma replace_prefix (p s : string) : Js.replace p EmptyString (p +:+ s) = s.
Proof.
  rewrite replace_unfold, prefix_append, append_length. simpl.
  replace (String.length p + String.length s - String.length p)%nat
    with (String.length s) by lia.
  apply substring_after.
Qed.

End ApiFacts.

Module ApiExtras.

Import Ledger AgentXAPI ApiFacts ExecutorMoreFacts JsFacts Scenario.

(** X25.  The executions view lists exactly the memories whose key starts
    with [execution_], each with its value and timestamp, and lists them
    with the timestamps going down. *)
Theorem executions_latest_first (toISOString : Z -> string)
    (memories : list Agent.Memory) :
  let executions := executionsOf toISOString memories in
  executions ≡ₚ toExecution toISOString <$> List.filter isExecution memories /\
  StronglySorted (fun a b => timestamp b <= timestamp a) executions /\
  (forall e, e ∈ executions ->
     exists m, m ∈ memories /\
               Js.startsWith (Agent.key m) "execution_" = true /\
               e = toExecution toISOString m).
Proof.
  intros executions. subst executions. unfold executionsOf.
  assert (Hrank : forall a b, byTimestampDescending a b
                              = Agent.timestamp b - Agent.timestamp a) by done.
  assert (Hdown : StronglySorted (fun a b => timestamp b <= timestamp a)
                    (toExecution toISOString <$>
                       Js.sort byTimestampDescending (List.filter isExecution memories))).
  { pose proof (sort_sorted Agent.timestamp byTimestampDescending Hrank
                  (List.filter isExecution memories)) as Hsorted.
    induction Hsorted as [|m l _ IH Hall]; simpl; [constructor|].
    constructor; [exact IH|].
    apply Forall_fmap. eapply Forall_impl; [exact Hall|]. done. }
  pose proof (sort_perm byTimestampDescending
                (List.filter isExecution memories)) as Hperm.
  split; [by rewrite Hperm|]. split; [exact Hdown|].
  intros e He. apply list_elem_of_fmap in He as (m & -> & Hm).
  rewrite Hperm in Hm. apply list_elem_of_In, filter_In in Hm as [Hm Hexec].
  exists m. split; [by apply list_elem_of_In|]. done.
Qed.

(** X26.  The key under which the executor files an execution is one the
    executions view picks up, and the view shows as its number the count
    the executor wrote into the key; executions with different counts have
    different keys. *)
Theorem execution_key_roundtrip (toISOString : Z -> string) (info : Agent.Info)
    (value : string) (time : Z) :
  let memory := Agent.mkMemory (AgentExecutor.executionKey info) value time in
  isExecution memory = true /\
  executionNumber (toExecution toISOString memory) = pretty (Agent.execCount info) /\
  forall info',
    AgentExecutor.executionKey info = AgentExecutor.executionKey info' ->
    Agent.execCount info = Agent.execCount info'.
Proof.
  intros memory. subst memory. unfold AgentExecutor.executionKey. split; [|split].
  - exact (prefix_append "execution_" (pretty (Agent.execCount info))).
  - exact (replace_prefix "execution_" (pretty (Agent.execCount info))).
  - intros info' Hkey. apply append_inj_r in Hkey. by apply (inj pretty).
Qed.

Lemma execution_key_roundtrip_witness :
  executionNumber
    (toExecution (fun _ => EmptyString)
       (Agent.mkMemory (AgentExecutor.executionKey (Agent.mkInfo 7 "g" "r" 1000 12 true 3))
          "twelfth" 5002)) = "12" /\
  AgentExecutor.executionKey (Agent.mkInfo 7 "g" "r" 1000 12 true 3)
  <> AgentExecutor.executionKey (Agent.mkInfo 7 "g" "r" 1000 13 true 3).
Proof.
  pose proof (execution_key_roundtrip (fun _ => EmptyString)
                (Agent.mkInfo 7 "g" "r" 1000 12 true 3) "twelfth" 5002)
    as (_ & Hnumber & Hinj).
  split; [exact Hnumber|].
  intros Hkey. apply Hinj in Hkey. discriminate.
Defined.

(** X27.  With the ledger in reach, the three routes that write change
    one agent or nothing: a request turned away with status 400 has not
    touched the ledger, and a request answered with the agent's
    information has changed nothing but the contract at the requested
    address.  No other status than 400 and 500 is ever sent for an error. *)
Theorem routes_change_one_agent_or_nothing (env : Env) (a : address) (w : World)
    (goal key value : option string) (isActive : option bool) :
  let answers := [putGoal env a goal w; postMemory env a key value w;
                  putActive env a isActive w] in
  Forall (fun answer =>
            match fst answer with
            | Error status _ =>
                (status = 400 \/ status = 500) /\ (status = 400 -> snd answer = w)
            | Json _ =>
                registry (snd answer) = registry w /\
                forall b, b <> a -> contracts (snd answer) !! b = contracts w !! b
            end) answers.
Proof.
  assert (Hstay : forall status : Z,
             status = 400 \/ status = 500 ->
             (status = 400 \/ status = 500) /\ (status = 400 -> w = w)) by done.
  assert (Hmove : forall s',
             registry (setContract w a s') = registry w /\
             forall b, b <> a -> contracts (setContract w a s') !! b = contracts w !! b).
  { intros s'. split; [done|]. intros other Hother. simpl. by rewrite lookup_insert_ne. }
  repeat constructor.
  - unfold putGoal. repeat case_match; simpl in *; simplify_eq; auto.
  - unfold postMemory. repeat case_match; simpl in *; simplify_eq; auto.
  - unfold putActive. repeat case_match; simpl in *; simplify_eq; auto.
Qed.

(** X28.  The goal route changes a goal only for an agent that the
    server's own wallet owns, and only to a text that is not blank: one
    that [String.prototype.trim] does not empty, having a code point that
    is not white space.  The agent then carries exactly the text of the
    request. *)
Theorem putGoal_needs_the_owner (env : Env) (a : address) (w : World)
    (goal : option string) (agentInfo : Agent.Info) :
  fst (putGoal env a goal w) = Json agentInfo ->
  exists g s s',
    goal = Some g /\ Js.trim g <> EmptyString /\
    Exists (fun c => Js.isWhiteSpace (Js.codePoint c) = false) (Js.codePoints g) /\
    contracts w !! a = Some s /\ wallet env = Agent.owner s /\
    contracts (snd (putGoal env a goal w)) !! a = Some s' /\
    Agent.goal s' = g /\ Agent.currentGoal agentInfo = g.
Proof.
  unfold putGoal. destruct goal as [g|]; [|discriminate].
  destruct (Js.falsy g || Js.falsy (Js.trim g)) eqn:Hblank; [discriminate|].
  destruct (contracts w !! a) as [s|] eqn:Hs; [|discriminate].
  unfold Agent.updateGoal, Agent.onlyOwner. simpl.
  destruct (Z.eqb_spec (wallet env) (Agent.owner s)) as [Hown|]; [|discriminate].
  simpl. intros [= <-]. eexists g, s, _.
  assert (Htrim : Js.trim g <> EmptyString).
  { intros Htrim. rewrite Htrim in Hblank. simpl in Hblank.
    by rewrite orb_true_r in Hblank. }
  split; [done|]. split; [exact Htrim|]. split; [by apply trim_not_empty|].
  rewrite lookup_insert_eq. repeat split; done.
Qed.

(** The owner's wallet changes the goal of agent 101; a goal of wide
    blanks is answered with an error, not with the agent. *)
Lemma putGoal_needs_the_owner_witness :
  (exists s',
     contracts (snd (putGoal (mkEnv 7 1500) 101 (Some "watch harder") fleet)) !! 101
       = Some s' /\
     Agent.goal s' = "watch harder") /\
  forall agentInfo,
    fst (putGoal (mkEnv 7 1500) 101 (Some wideBlanks) fleet) <> Json agentInfo.
Proof.
  split.
  - destruct (putGoal_needs_the_owner (mkEnv 7 1500) 101 fleet (Some "watch harder")
                _ eq_refl)
      as (g & s & s' & Hg & _ & _ & _ & _ & Hs' & Hgoal & _).
    injection Hg as <-. exists s'. split; [exact Hs'|exact Hgoal].
  - intros agentInfo Hjson.
    destruct (putGoal_needs_the_owner (mkEnv 7 1500) 101 fleet (Some wideBlanks)
                agentInfo Hjson)
      as (g & _ & _ & Hg & Htrim & _).
    injection Hg as <-. apply Htrim. by vm_compute.
Defined.

(** The view over [diary]: the two entries of the owner are left out, one
    of them although its key begins like the others. *)
Example executions_of_diary :
  executionNumber <$> executionsOf (fun _ => EmptyString) diary = ["2"; "1"; "0"].
Proof. reflexivity. Qed.

End ApiExtras.

(** ** Sums over a scan, keys over a run *)

Module CountingExtras.

Import Ledger AgentFacts AgentMoreFacts Scenario.

Lemma replay_index_agrees (txs : list (Msg * Agent.Call)) :
  forall s : Agent.State,
    Agent.index_agrees s -> Agent.index_agrees (Agent.replay txs s).
Proof.
  induction txs as [|[m c] txs IH]; intros s Hinv; simpl; [done|].
  apply IH. by apply index_agrees_transact.
Qed.

Lemma replay_key_origin (txs : list (Msg * Agent.Call)) :
  forall (s : Agent.State) (k : string),
    k ∈ Agent.key <$> Agent.memories (Agent.replay txs s) ->
    k ∈ Agent.key <$> Agent.memories s \/
    exists m v, (m, Agent.CallStoreMemory k v) ∈ txs.
Proof.
  induction txs as [|[m c] txs IH]; intros s k Hk; simpl in Hk; [by left|].
  destruct (IH _ _ Hk) as [Hold|(m' & v & Hin)].
  - destruct (transact_cases m c s) as [[Hsame _]|Hcall].
    + left. by rewrite Hsame in Hold.
    + destruct (dispatch_keys _ _ _ _ Hcall) as [Heq|(k0 & v0 & -> & Heq)].
      * left. by rewrite Heq in Hold.
      * rewrite Heq, elem_of_app, list_elem_of_singleton in Hold.
        destruct Hold as [Hold| ->]; [by left|].
        right. exists m, v0. by left.
  - right. exists m', v. by right.
Qed.

(** X29.  Every key an agent holds was put there by a [storeMemory]
    transaction it received, and no key is held twice: an agent never has
    more memories than distinct keys were stored in it. *)
Theorem memories_are_stored_keys (txs : list (Msg * Agent.Call)) (m : Msg)
    (_owner : address) (_goal : string) :
  let s := Agent.replay txs (Agent.constructor m _owner _goal) in
  NoDup (Agent.key <$> Agent.memories s) /\
  forall k, k ∈ Agent.key <$> Agent.memories s ->
            exists m' v, (m', Agent.CallStoreMemory k v) ∈ txs.
Proof.
  intros s. subst s. split.
  - apply index_agrees_NoDup, replay_index_agrees, index_agrees_constructor.
  - intros k Hk. apply replay_key_origin in Hk as [Hnone|Hstored]; [|done].
    by apply elem_of_nil in Hnone.
Qed.

Lemma memories_are_stored_keys_witness :
  NoDup (Agent.key <$> Agent.memories (Agent.replay busy newborn)) /\
  exists m' v, (m', Agent.CallStoreMemory "b" v) ∈ busy.
Proof.
  destruct (memories_are_stored_keys busy (mkMsg 900 1000) 7 "watch the chain")
    as [Hnd Horigin].
  split; [exact Hnd|]. apply Horigin.
  vm_compute. apply list_elem_of_further, list_elem_of_here.
Defined.

Import AgentMonitor.

(** X30.  The counters of a scan are sums over the agents whose
    information could be read, the others being left out without stopping
    the scan: as many active as there are active ones among them, the sum
    of their execution counts, and as many recent as have a time stamp
    within the last hour. *)
Theorem scan_counts_the_readable (env : Env) (w : World) (page : list address) :
  let readable := omap (fun a => getAgentInfo env a w) page in
  let c := fold_left (scanOne env w) page (mkCounters 0 0 0) in
  nActive c = Z.of_nat (length (List.filter Agent.active readable)) /\
  nExecutions c = foldr Z.add 0 (Agent.execCount <$> readable) /\
  nRecent c =
    Z.of_nat (length (List.filter
                        (fun info => Agent.lastExecution info >? currentTime env - 3600)
                        readable)).
Proof.
  intros readable c. subst readable c.
  assert (Hgen : forall acc,
    let readable := omap (fun a => getAgentInfo env a w) page in
    let c := fold_left (scanOne env w) page acc in
    nActive c = nActive acc + Z.of_nat (length (List.filter Agent.active readable)) /\
    nExecutions c = nExecutions acc + foldr Z.add 0 (Agent.execCount <$> readable) /\
    nRecent c = nRecent acc +
      Z.of_nat (length (List.filter
                          (fun info => Agent.lastExecution info >? currentTime env - 3600)
                          readable))).
  { induction page as [|a page IH]; intros acc; [simpl; lia|].
    assert (Hcons : omap (fun a => getAgentInfo env a w) (a :: page)
                    = match getAgentInfo env a w with
                      | Some info => info :: omap (fun a => getAgentInfo env a w) page
                      | None => omap (fun a => getAgentInfo env a w) page
                      end) by done.
    cbv zeta. rewrite Hcons. clear Hcons.
    change (fold_left (scanOne env w) (a :: page) acc)
      with (fold_left (scanOne env w) page (scanOne env w acc a)).
    destruct (IH (scanOne env w acc a)) as (-> & -> & ->).
    unfold scanOne, recentThreshold.
    destruct (getAgentInfo env a w) as [info|]; [|done].
    set (rest := omap (fun a => getAgentInfo env a w) page).
    rewrite fmap_cons. cbn [foldr List.filter nActive nExecutions nRecent].
    destruct (Agent.active info); destruct (_ >? _); cbn [length]; lia. }
  destruct (Hgen (mkCounters 0 0 0)) as (-> & -> & ->). simpl. done.
Qed.

End CountingExtras.
